(** * Calendar event retrieval, classification and aggregation

    A shallow embedding of the event pipeline of the [wallaby] package
    ([wallaby/cli/list_events.py], [wallaby/cli/download_notes.py],
    [wallaby/calendar_client.py], [wallaby/drive_client.py]) and of the
    stand-alone script [list-calendar-events.py], with the properties of the
    date-window arithmetic, the paginated fetch loop, the streaming
    aggregation, the attendance classifier, the filename sanitiser and the
    collision-safe file organiser.

    Conventions of the embedding:
    - a Python [str] is a Rocq [string]; its characters stand for the code
      points below 256;
    - a Python exception is a value [Raise e] of the [result] type;
    - a [dict] with string keys whose order is observable (the daily
      statistics, which become CSV rows) is an association list updated as
      Python does; the per-outcome counters and the file system are finite
      maps;
    - a JSON object of the calendar service is a record whose optional
      members are [option] fields ([None]: the key is absent);
    - time stamps are kept parsed: [dateutil.parser.parse] is the identity on
      a present value and raises [TypeError] on [None]. *)

From Stdlib Require Import ZArith QArith String Ascii List Lia.
From stdpp Require Import gmap strings list fin_maps pretty sorting.
From ITree Require Import ITree ITreeFacts Events.State Events.StateFacts.

Local Open Scope string_scope.
Local Open Scope list_scope.
Local Open Scope Z_scope.

(** ** Python values: exceptions and strings *)

Module Py.

(** The exceptions the modelled code can raise.  [LoopBound] is not a
    Python exception: it marks a [while] loop of the model that used up
    its iteration bound, and is shown never to occur. *)
Inductive exn : Type :=
| KeyError | TypeError | ValueError | ZeroDivisionError | HttpError | LoopBound.

Inductive result (A : Type) : Type :=
| Ok (a : A)
| Raise (e : exn).
Arguments Ok {A} a.
Arguments Raise {A} e.

#[global] Instance result_ret : MRet result := fun A a => Ok a.
#[global] Instance result_bind : MBind result := fun A B f m =>
  match m with
  | Ok a => f a
  | Raise e => Raise e
  end.

(** [d[k]] on an optional member: [KeyError] when the key is absent. *)
Definition getitem {A} (o : option A) : result A :=
  match o with
  | Some a => Ok a
  | None => Raise KeyError
  end.

(** [d.get(k, dflt)]. *)
Definition get {A} (o : option A) (dflt : A) : A :=
  match o with
  | Some a => a
  | None => dflt
  end.

(** Membership of a character in a character set given as a string. *)
Fixpoint char_in (c : ascii) (chars : string) : bool :=
  match chars with
  | EmptyString => false
  | String c' rest => Ascii.eqb c c' || char_in c rest
  end.

(** [re.sub('[chars]', repl, s)] for a character-class pattern: every
    character of the class is a match of length one. *)
Fixpoint re_sub_class (chars repl s : string) : string :=
  match s with
  | EmptyString => EmptyString
  | String c rest =>
      if char_in c chars then repl +:+ re_sub_class chars repl rest
      else String c (re_sub_class chars repl rest)
  end.

(** [s[:n]]. *)
Fixpoint slice_to (n : nat) (s : string) : string :=
  match n, s with
  | S n', String c rest => String c (slice_to n' rest)
  | _, _ => EmptyString
  end.

(** [s.rstrip(chars)]. *)
Fixpoint rstrip (chars s : string) : string :=
  match s with
  | EmptyString => EmptyString
  | String c rest =>
      match rstrip chars rest with
      | EmptyString => if char_in c chars then EmptyString else String c EmptyString
      | kept => String c kept
      end
  end.

(** [c.lower()] on the code points below 256: the ASCII capitals and the
    Latin-1 capitals other than the multiplication sign. *)
Definition lower_char (c : ascii) : ascii :=
  let n := nat_of_ascii c in
  if ((65 <=? n) && (n <=? 90) || (192 <=? n) && (n <=? 222) && negb (n =? 215))%nat
  then ascii_of_nat (n + 32)
  else c.

Fixpoint lower (s : string) : string :=
  match s with
  | EmptyString => EmptyString
  | String c rest => String (lower_char c) (lower rest)
  end.

(** [sub in s]. *)
Fixpoint contains (sub s : string) : bool :=
  String.prefix sub s ||
  match s with
  | EmptyString => false
  | String _ rest => contains sub rest
  end.

(** [s.rsplit(sep, 1)] for a one-character separator: [None] when [sep]
    does not occur (Python returns the one-element list [[s]]), otherwise
    the parts before and after the last occurrence. *)
Fixpoint rsplit1 (sep : ascii) (s : string) : option (string * string) :=
  match s with
  | EmptyString => None
  | String c rest =>
      match rsplit1 sep rest with
      | Some (before, after) => Some (String c before, after)
      | None => if Ascii.eqb c sep then Some (EmptyString, rest) else None
      end
  end.

(** [sep.join(parts)]. *)
Fixpoint join (sep : string) (parts : list string) : string :=
  match parts with
  | [] => EmptyString
  | [p] => p
  | p :: rest => p +:+ sep +:+ join sep rest
  end.

(** [f"{n}"] for a non-negative integer. *)
Definition str_of_nat (n : nat) : string := pretty n.

End Py.
Import Py.

(** ** [datetime]: dates, time stamps, durations *)

Module Datetime.

Record date : Type := mkdate { d_year : Z; d_month : Z; d_day : Z }.

(** An aware [datetime]; [utcoffset] is in seconds. *)
Record datetime : Type := mkdatetime {
  year : Z; month : Z; day : Z;
  hour : Z; minute : Z; second : Z; microsecond : Z;
  utcoffset : Z
}.

(** A [timedelta] is a signed number of microseconds. *)
Definition timedelta : Type := Z.

Definition timedelta_of_minutes (m : Z) : timedelta := m * 60 * 1000000.
Definition timedelta_of_seconds (s : Z) : timedelta := s * 1000000.

Definition is_leap (y : Z) : bool :=
  (y mod 4 =? 0) && (negb (y mod 100 =? 0) || (y mod 400 =? 0)).

(** [calendar.mdays] / [datetime._DAYS_IN_MONTH]. *)
Definition mdays (m : Z) : Z :=
  match m with
  | 1 => 31 | 2 => 28 | 3 => 31 | 4 => 30 | 5 => 31 | 6 => 30
  | 7 => 31 | 8 => 31 | 9 => 30 | 10 => 31 | 11 => 30 | 12 => 31
  | _ => 0
  end.

Definition days_in_month (y m : Z) : Z :=
  if (m =? 2) && is_leap y then 29 else mdays m.

Definition days_before_year (y : Z) : Z :=
  let p := y - 1 in p * 365 + p / 4 - p / 100 + p / 400.

Definition days_before_month (y m : Z) : Z :=
  match m with
  | 1 => 0 | 2 => 31 | 3 => 59 | 4 => 90 | 5 => 120 | 6 => 151
  | 7 => 181 | 8 => 212 | 9 => 243 | 10 => 273 | 11 => 304 | 12 => 334
  | _ => 0
  end + (if (2 <? m) && is_leap y then 1 else 0).

(** [date.toordinal()]. *)
Definition ymd2ord (y m d : Z) : Z :=
  days_before_year y + days_before_month y m + d.

Definition toordinal (d : date) : Z := ymd2ord (d_year d) (d_month d) (d_day d).

(** [calendar.weekday]: Monday is 0. *)
Definition weekday (y m d : Z) : Z := (ymd2ord y m d + 6) mod 7.

(** [calendar.monthrange(year, month)]: week day of the first day and
    number of days of the month. *)
Definition monthrange (y m : Z) : result (Z * Z) :=
  if (1 <=? m) && (m <=? 12)
  then Ok (weekday y m 1, days_in_month y m)
  else Raise ValueError.

(** The field checks of the [datetime] constructor. *)
Definition check_fields (t : datetime) : bool :=
  (1 <=? year t) && (year t <=? 9999) &&
  (1 <=? month t) && (month t <=? 12) &&
  (1 <=? day t) && (day t <=? days_in_month (year t) (month t)) &&
  (0 <=? hour t) && (hour t <=? 23) &&
  (0 <=? minute t) && (minute t <=? 59) &&
  (0 <=? second t) && (second t <=? 59) &&
  (0 <=? microsecond t) && (microsecond t <=? 999999).

(** [t.replace(year=.., month=.., day=.., hour=.., minute=.., second=..)];
    an omitted keyword is [None].  The rebuilt value goes through the
    constructor's checks, which raise [ValueError]. *)
Definition replace (t : datetime) (y m d hh mm ss : option Z) : result datetime :=
  let t' := {| year := get y (year t); month := get m (month t);
               day := get d (day t); hour := get hh (hour t);
               minute := get mm (minute t); second := get ss (second t);
               microsecond := microsecond t; utcoffset := utcoffset t |} in
  if check_fields t' then Ok t' else Raise ValueError.

(** [t.date()]. *)
Definition date_of (t : datetime) : date :=
  {| d_year := year t; d_month := month t; d_day := day t |}.

(** Microseconds since the start of the proleptic calendar, in UTC. *)
Definition instant (t : datetime) : Z :=
  ((ymd2ord (year t) (month t) (day t) * 86400
    + hour t * 3600 + minute t * 60 + second t - utcoffset t) * 1000000)
  + microsecond t.

(** [a - b] on aware values. *)
Definition sub (a b : datetime) : timedelta := instant a - instant b.

Definition digit (n : Z) : ascii := ascii_of_nat (48 + Z.to_nat n).

Definition pad2 (n : Z) : string :=
  String (digit (n / 10)) (String (digit (n mod 10)) EmptyString).

Definition pad4 (n : Z) : string :=
  String (digit (n / 1000)) (String (digit (n / 100 mod 10))
    (String (digit (n / 10 mod 10)) (String (digit (n mod 10)) EmptyString))).

(** [d.strftime('%Y-%m-%d')], the year on four digits. *)
Definition strftime_ymd (d : date) : string :=
  pad4 (d_year d) +:+ "-" +:+ pad2 (d_month d) +:+ "-" +:+ pad2 (d_day d).

Definition valid_date (d : date) : Prop :=
  1 <= d_year d <= 9999 /\ 1 <= d_month d <= 12 /\
  1 <= d_day d <= days_in_month (d_year d) (d_month d).

(** [datetime._DAYS_BEFORE_MONTH]. *)
Definition DAYS_BEFORE_MONTH (m : Z) : Z :=
  match m with
  | 1 => 0 | 2 => 31 | 3 => 59 | 4 => 90 | 5 => 120 | 6 => 151
  | 7 => 181 | 8 => 212 | 9 => 243 | 10 => 273 | 11 => 304 | 12 => 334
  | _ => 0
  end.

(** [datetime._ord2ymd], the inverse of [ymd2ord]: the date of an ordinal
    ([date.fromordinal]).  The divisors are the days of 400, 100, 4 and 1
    years. *)
Definition ord2ymd (n : Z) : date :=
  let n := n - 1 in
  let n400 := n / 146097 in
  let n := n mod 146097 in
  let year := n400 * 400 + 1 in
  let n100 := n / 36524 in
  let n := n mod 36524 in
  let n4 := n / 1461 in
  let n := n mod 1461 in
  let n1 := n / 365 in
  let n := n mod 365 in
  let year := year + n100 * 100 + n4 * 4 + n1 in
  if (n1 =? 4) || (n100 =? 4) then mkdate (year - 1) 12 31
  else
    let leapyear := (n1 =? 3) && (negb (n4 =? 24) || (n100 =? 3)) in
    let month := Z.shiftr (n + 50) 5 in
    let preceding :=
      DAYS_BEFORE_MONTH month + (if (2 <? month) && leapyear then 1 else 0) in
    let '(month, preceding) :=
      if n <? preceding then
        (month - 1,
         preceding - (mdays (month - 1) + (if (month - 1 =? 2) && leapyear then 1 else 0)))
      else (month, preceding) in
    mkdate year month (n - preceding + 1).

(** [date.max.toordinal()], the ordinal of 31 December 9999. *)
Definition MAXORDINAL : Z := 3652059.

(** The outcome of date arithmetic, which raises [OverflowError] when the
    result leaves the years 1 to 9999. *)
Inductive overflow (A : Type) : Type :=
| InRange (a : A)
| OverflowError.
Arguments InRange {A} a.
Arguments OverflowError {A}.

(** [t - datetime.timedelta(days=days)]: the time of day and the offset
    stay, the date moves by whole days.  [timedelta] raises [OverflowError]
    for more than 999999999 days, which is out of the range of ordinals
    anyway. *)
Definition minus_days (t : datetime) (days : Z) : overflow datetime :=
  let ordinal := ymd2ord (year t) (month t) (day t) - days in
  if (0 <? ordinal) && (ordinal <=? MAXORDINAL) then
    let d := ord2ymd ordinal in
    InRange {| year := d_year d; month := d_month d; day := d_day d;
               hour := hour t; minute := minute t; second := second t;
               microsecond := microsecond t; utcoffset := utcoffset t |}
  else OverflowError.

(** [t.replace(hour=.., minute=.., second=.., microsecond=..)]. *)
Definition replace_time (t : datetime) (hh mm ss us : Z) : result datetime :=
  let t' := {| year := year t; month := month t; day := day t;
               hour := hh; minute := mm; second := ss;
               microsecond := us; utcoffset := utcoffset t |} in
  if check_fields t' then Ok t' else Raise ValueError.

Definition pad6 (n : Z) : string :=
  String (digit (n / 100000)) (String (digit (n / 10000 mod 10))
    (String (digit (n / 1000 mod 10)) (String (digit (n / 100 mod 10))
      (String (digit (n / 10 mod 10)) (String (digit (n mod 10)) EmptyString))))).

(** [datetime._format_offset] for an offset of whole seconds. *)
Definition format_offset (off : Z) : string :=
  let sign := if off <? 0 then "-" else "+" in
  let off := Z.abs off in
  let hh := off / 3600 in
  let mm := off mod 3600 / 60 in
  let ss := off mod 60 in
  sign +:+ pad2 hh +:+ ":" +:+ pad2 mm
  +:+ (if ss =? 0 then EmptyString else ":" +:+ pad2 ss).

(** [t.isoformat()] of an aware value: the microseconds are written when
    they are not zero. *)
Definition isoformat (t : datetime) : string :=
  pad4 (year t) +:+ "-" +:+ pad2 (month t) +:+ "-" +:+ pad2 (day t) +:+ "T"
  +:+ pad2 (hour t) +:+ ":" +:+ pad2 (minute t) +:+ ":" +:+ pad2 (second t)
  +:+ (if microsecond t =? 0 then EmptyString else "." +:+ pad6 (microsecond t))
  +:+ format_offset (utcoffset t).

End Datetime.
Import Datetime.

(** ** The calendar service's JSON objects *)

Module Model.

(** [{"dateTime": .., "date": ..}]: a timed event carries [dateTime], an
    all-day event carries [date]. *)
Record TimeSpec : Type := mkTimeSpec {
  dateTime : option datetime;
  date_ : option date
}.

Record Attendee : Type := mkAttendee {
  email : option string;
  displayName : option string;
  responseStatus : option string
}.

Record Creator : Type := mkCreator {
  creator_email : option string;
  creator_displayName : option string
}.

Record Attachment : Type := mkAttachment {
  fileId : option string;
  title : option string;
  mimeType : option string
}.

Record Event : Type := mkEvent {
  summary : option string;
  start : option TimeSpec;
  end_ : option TimeSpec;
  attendees : option (list Attendee);
  creator : option Creator;
  attachments : option (list Attachment)
}.

(** [dateutil.parser.parse(x)]: [TypeError] on [None]. *)
Definition parser_parse {A} (x : option A) : result A :=
  match x with
  | Some v => Ok v
  | None => Raise TypeError
  end.

End Model.
Import Model.

(** ** Python's insertion-ordered [dict] *)

Module Dict.

Section Dict.
Context {V : Type}.

(** [d[k] = v]: an existing key keeps its position, a new key goes last. *)
Fixpoint setitem (k : string) (v : V) (d : list (string * V)) : list (string * V) :=
  match d with
  | [] => [(k, v)]
  | (k', v') :: rest =>
      if String.eqb k' k then (k, v) :: rest else (k', v') :: setitem k v rest
  end.

Fixpoint lookup (k : string) (d : list (string * V)) : option V :=
  match d with
  | [] => None
  | (k', v') :: rest => if String.eqb k' k then Some v' else lookup k rest
  end.

Definition keys (d : list (string * V)) : list string := List.map fst d.
End Dict.

End Dict.

(** ** [wallaby/cli/list_events.py] *)

Module ListEvents.

(** [get_date_range(months)], with the clock reading [now] (in UTC) made
    an argument.  The two time stamps are returned as values; the source
    renders them with [isoformat]. *)
Definition get_date_range (now : datetime) (months : Z) : result (datetime * datetime) :=
  dayrange ← monthrange (year now) (month now);
  let startyear := year now in
  let startmonth := month now in
  let monthoffset := months - 1 in
  let '(startyear, startmonth) :=
    if 0 <? monthoffset then
      if startmonth <=? monthoffset
      then (startyear - 1, 12 - (monthoffset - 1))
      else (startyear, month now - monthoffset)
    else (startyear, startmonth) in
  start ← replace now (Some startyear) (Some startmonth) (Some 1)
                      (Some 0) (Some 0) (Some 0);
  end_ ← replace now None None (Some (snd dayrange))
                     (Some 23) (Some 59) (Some 59);
  Ok (start, end_).

Record DailyStat : Type := mkDailyStat { time : timedelta; count : nat }.

(** A row of [meetings.csv]. *)
Inductive MeetingsRow : Type :=
| MeetingsHeader
| Meeting (datestr summary : string) (duration : timedelta) (categories creator : string)
          (accepted_count : nat) (accepted_attendees : string).

(** A row of [stats.csv].  The average count is Python's true division of
    two integers, kept as the exact quotient. *)
Inductive StatsRow : Type :=
| StatsHeader
| StatsDay (day : string) (cumulative : timedelta) (meetings : nat)
| StatsAverages (average_time : timedelta) (average_count : Q).

(** [[a.get('displayName', a['email']) for a in attendees
      if a.get('responseStatus') == 'accepted']]. *)
Fixpoint accepted_attendees (atts : list Attendee) : result (list string) :=
  match atts with
  | [] => Ok []
  | a :: rest =>
      if bool_decide (responseStatus a = Some "accepted") then
        e ← getitem (email a);
        names ← accepted_attendees rest;
        Ok (get (displayName a) e :: names)
      else accepted_attendees rest
  end.

(** The variables of the loop of [export_events_to_csv]. *)
Record Fold : Type := mkFold {
  total : nat;
  stats : list (string * DailyStat);
  current : option string;
  cumulative_time : timedelta;
  current_count : nat;
  rows : list MeetingsRow
}.

Definition initial : Fold :=
  {| total := 0; stats := []; current := None;
     cumulative_time := timedelta_of_minutes 0; current_count := 0;
     rows := [MeetingsHeader] |}.

(** One iteration of [for event in events]. *)
Definition body (user_email : string) (st : Fold) (event : Event) : result Fold :=
  if (1 <? length (get (attendees event) []))%nat then
    atts ← getitem (attendees event);
    names ← accepted_attendees atts;
    if bool_decide (user_email ∈ names) then
      let total' := S (total st) in
      start_ ← (s ← getitem (start event); parser_parse (dateTime s));
      end' ← (e ← getitem (end_ event); parser_parse (dateTime e));
      let duration := sub end' start_ in
      let datestr := strftime_ymd (date_of start_) in
      let '(stats', current', cumulative', count') :=
        match current st with
        | None => (stats st, datestr, duration, current_count st)
        | Some cur =>
            if negb (String.eqb cur datestr) then
              (Dict.setitem cur
                 {| time := cumulative_time st; count := current_count st |} (stats st),
               datestr, duration, 0%nat)
            else (stats st, cur, cumulative_time st + duration, current_count st)
        end in
      let count' := S count' in
      summary_ ← getitem (summary event);
      c ← getitem (creator event);
      creator_email_ ← getitem (creator_email c);
      let row := Meeting datestr summary_ duration "TBD"
                   (get (creator_displayName c) creator_email_)
                   (length names) (join ", " names) in
      Ok {| total := total'; stats := stats'; current := Some current';
            cumulative_time := cumulative'; current_count := count';
            rows := rows st ++ [row] |}
    else Ok st
  else Ok st.

Fixpoint loop (user_email : string) (st : Fold) (events : list Event) : result Fold :=
  match events with
  | [] => Ok st
  | event :: rest => st' ← body user_email st event; loop user_email st' rest
  end.

(** [# Don't forget the last day's stats]. *)
Definition seal (st : Fold) : list (string * DailyStat) :=
  match current st with
  | Some cur =>
      Dict.setitem cur {| time := cumulative_time st; count := current_count st |} (stats st)
  | None => stats st
  end.

(** The rows and running totals of [for day, daystats in stats.items()]. *)
Fixpoint day_rows (stats : list (string * DailyStat)) (acc : list StatsRow * timedelta * nat)
  : list StatsRow * timedelta * nat :=
  match stats with
  | [] => acc
  | (day, daystats) :: rest =>
      let '(written, total_time, total_count) := acc in
      day_rows rest (written ++ [StatsDay day (time daystats) (count daystats)],
                     total_time + time daystats, (total_count + count daystats)%nat)
  end.

(** [timedelta(seconds=int(total_time.total_seconds() / n))]: the quotient
    truncated to whole seconds. *)
Definition average_time (total_time : timedelta) (n : nat) : timedelta :=
  timedelta_of_seconds (Z.quot total_time (1000000 * Z.of_nat n)).

(** [total_count / n]. *)
Definition average_count (total_count n : nat) : Q :=
  Qmake (Z.of_nat total_count) (Pos.of_nat n).

(** [export_stats_to_csv(stats)]: the rows written to [stats.csv]. *)
Definition export_stats_to_csv (stats : list (string * DailyStat)) : list StatsRow :=
  let '(written, total_time, total_count) :=
    day_rows stats ([StatsHeader], timedelta_of_minutes 0, 0%nat) in
  if (0 <? length stats)%nat then
    written ++ [StatsAverages (average_time total_time (length stats))
                              (average_count total_count (length stats))]
  else written.

(** The daily statistics [export_events_to_csv] hands to
    [export_stats_to_csv]. *)
Definition daily_stats (events : list Event) (user_email : string)
  : result (list (string * DailyStat)) :=
  st ← loop user_email initial events; Ok (seal st).

Record Exported : Type := mkExported {
  meetings_csv : list MeetingsRow;
  stats_csv : list StatsRow;
  written : nat
}.

(** [export_events_to_csv(events, user_email)]: the rows of
    [meetings.csv] and [stats.csv] and the count of the closing message. *)
Definition export_events_to_csv (events : list Event) (user_email : string) : result Exported :=
  st ← loop user_email initial events;
  let stats := seal st in
  Ok {| meetings_csv := rows st;
        stats_csv := export_stats_to_csv stats;
        written := total st |}.

End ListEvents.

(** ** [list-calendar-events.py] *)

Module Legacy.
Import ListEvents.

(** The statistics file of [main] (lines 166-190): the day rows, then the
    averages, whose divisions by [len(stats)] are not guarded. *)
Definition stats_file (stats : list (string * DailyStat)) : result (list StatsRow) :=
  let '(written, totalTime, totalCount) :=
    day_rows stats ([StatsHeader], timedelta_of_minutes 0, 0%nat) in
  if (length stats =? 0)%nat then Raise ZeroDivisionError
  else Ok (written ++ [StatsAverages (average_time totalTime (length stats))
                                     (average_count totalCount (length stats))]).

(** The part of [main] that follows the fetch: the report loop (lines
    125-163, statement for statement the loop of
    [ListEvents.export_events_to_csv], with the module constant [ME] for
    [user_email]), after which the mapping goes to the statistics file as
    the loop left it.  [None] is the early return on an empty event list. *)
Definition main (ME : string) (events : list Event) : result (option Exported) :=
  match events with
  | [] => Ok None
  | _ =>
      st ← loop ME initial events;
      let stats := ListEvents.stats st in
      stats_rows ← stats_file stats;
      Ok (Some {| meetings_csv := rows st; stats_csv := stats_rows; written := total st |})
  end.

End Legacy.

(** ** The file system *)

Module FileSystem.

(** A file of the archive: an event record (serialised by
    [format_event_data]) or the text of a downloaded note.  The file system
    is a finite map from paths to files, [gmap string File]; creating a
    directory and writing a file always succeed. *)
Inductive File : Type :=
| EventFile (event : Event)
| NoteFile (text : string).

End FileSystem.
Import FileSystem.

(** ** [wallaby/drive_client.py] *)

Module DriveClient.

(** What a call of [download_document_as_text] can do: write the whole
    text and return [True]; fail after the output file was opened, leaving
    what was written so far, and return [False]; or fail before the file is
    opened and return [False]. *)
Inductive Download : Type :=
| Completed (text : string)
| Interrupted (partial : string)
| Refused.

(** The Drive service as seen by [download_document_as_text], by file id. *)
Record DriveClient : Type := mkDriveClient {
  export_media : string -> Download
}.

(** [download_document_as_text(file_id, output_path)] on the files [fs]:
    the files afterwards and the value returned. *)
Definition download_document_as_text (drive_client : DriveClient)
    (fs : gmap string File) (file_id output_path : string) : gmap string File * bool :=
  match export_media drive_client file_id with
  | Completed text => (<[output_path := NoteFile text]> fs, true)
  | Interrupted partial => (<[output_path := NoteFile partial]> fs, false)
  | Refused => (fs, false)
  end.

Definition gemini_indicators : list string :=
  ["notes by gemini"; "gemini notes"; "by gemini"].

(** [is_gemini_note(attachment)]. *)
Definition is_gemini_note (attachment : Attachment) : bool :=
  let title_ := lower (get (title attachment) "") in
  let mime_type := get (mimeType attachment) "" in
  let is_google_doc := String.eqb mime_type "application/vnd.google-apps.document" in
  let has_gemini_indicator :=
    existsb (fun indicator => contains indicator title_) gemini_indicators in
  is_google_doc && has_gemini_indicator.

End DriveClient.
Import DriveClient.

(** ** [wallaby/cli/download_notes.py] *)

Module DownloadNotes.

(** The nine characters of the first pattern: less-than, greater-than,
    colon, double quote (code 34), slash, backslash, bar, question mark
    and star. *)
Definition invalid_chars : string :=
  String "<" (String ">" (String ":" (String (ascii_of_nat 34)
    (String "/" (String "\" (String "|" (String "?" (String "*" EmptyString)))))))).

(** The characters of the pattern [[\r\n\t]]. *)
Definition control_chars : string :=
  String (ascii_of_nat 13) (String (ascii_of_nat 10) (String (ascii_of_nat 9) EmptyString)).

Definition sanitize_filename (filename : string) : string :=
  let sanitized := re_sub_class invalid_chars "_" filename in
  let sanitized := re_sub_class control_chars "_" sanitized in
  let sanitized :=
    if (200 <? String.length sanitized)%nat then slice_to 200 sanitized else sanitized in
  let sanitized := rstrip ". " sanitized in
  sanitized.

(** The [for attendee in attendees] loop of [get_attendance_status]. *)
Fixpoint find_status (attendees_ : list Attendee) (user_email : string) : string :=
  match attendees_ with
  | [] => "unacknowledged"
  | attendee :: rest =>
      if String.eqb (lower (get (email attendee) "")) (lower user_email) then
        let response_status := get (responseStatus attendee) "needsAction" in
        if String.eqb response_status "accepted" then "attended"
        else if String.eqb response_status "declined" then "rejected"
        else "unacknowledged"
      else find_status rest user_email
  end.

Definition get_attendance_status (event : Event) (user_email : string) : string :=
  let attendees_ := get (attendees event) [] in
  find_status attendees_ user_email.

(** [get_file_extension(event)]: an [Event] is a [dict]. *)
Definition get_file_extension (event_data : Event) : string := ".yaml".

(** [event_dir / name]. *)
Definition path_join (dir name : string) : string := dir +:+ "/" +:+ name.

Definition path_exists (fs : gmap string File) (path : string) : bool :=
  bool_decide (is_Some (fs !! path)).

(** [while file_path.exists(): file_path = event_dir / new_name(counter);
    counter += 1], run for at most [fuel] iterations. *)
Fixpoint first_free (fs : gmap string File) (event_dir : string) (new_name : nat -> string)
    (fuel : nat) (file_path : string) (counter : nat) : result string :=
  if path_exists fs file_path then
    match fuel with
    | O => Raise LoopBound
    | S fuel' =>
        first_free fs event_dir new_name fuel' (path_join event_dir (new_name counter)) (S counter)
    end
  else Ok file_path.

(** The name tried at [counter] for an event file. *)
Definition event_new_filename (filename : string) (counter : nat) : string :=
  match rsplit1 "." filename with
  | Some (stem, ext) => stem +:+ "_" +:+ str_of_nat counter +:+ "." +:+ ext
  | None => filename +:+ "_" +:+ str_of_nat counter
  end.

(** The name tried at [counter] for a note: both branches of the source
    build [name_parts[0]_counter.txt]. *)
Definition note_new_name (safe_title : string) (counter : nat) : string :=
  let name_parts :=
    if char_in "." safe_title then
      match rsplit1 "." safe_title with
      | Some (stem, ext) => (stem, ext)
      | None => (safe_title, EmptyString)
      end
    else (safe_title, EmptyString) in
  fst name_parts +:+ "_" +:+ str_of_nat counter +:+ ".txt".

(** Enough iterations for any directory content: the names tried at
    different counters differ. *)
Definition bound (fs : gmap string File) : nat := S (size fs).

(** One iteration of [for i, attachment in enumerate(attachments)]. *)
Definition download_one (drive_client : DriveClient) (event_dir : string)
    (acc : gmap string File * nat) (i : nat) (attachment : Attachment)
  : result (gmap string File * nat) :=
  let '(fs, gemini_notes_downloaded) := acc in
  if is_gemini_note attachment then
    let file_id := fileId attachment in
    let title_ := get (title attachment) ("Gemini_Note_" +:+ str_of_nat i) in
    match file_id with
    | None | Some EmptyString => Ok acc
    | Some file_id =>
        let safe_title := sanitize_filename title_ in
        gemini_file_path ←
          first_free fs event_dir (note_new_name safe_title) (bound fs)
                     (path_join event_dir (safe_title +:+ ".txt")) 1;
        let '(fs', success) :=
          download_document_as_text drive_client fs file_id gemini_file_path in
        Ok (fs', if success then S gemini_notes_downloaded else gemini_notes_downloaded)
    end
  else Ok acc.

Fixpoint download_loop (drive_client : DriveClient) (event_dir : string)
    (acc : gmap string File * nat) (i : nat) (attachments_ : list Attachment)
  : result (gmap string File * nat) :=
  match attachments_ with
  | [] => Ok acc
  | attachment :: rest =>
      acc' ← download_one drive_client event_dir acc i attachment;
      download_loop drive_client event_dir acc' (S i) rest
  end.

(** [download_gemini_notes(event, drive_client, event_dir)]: the file
    system afterwards and the number of notes downloaded. *)
Definition download_gemini_notes (fs : gmap string File) (event : Event)
    (drive_client : DriveClient) (event_dir : string) : result (gmap string File * nat) :=
  download_loop drive_client event_dir (fs, 0%nat) 0 (get (attachments event) []).

(** [stats[key] += n]. *)
Definition increment (key : string) (n : nat) (stats : gmap string nat)
  : result (gmap string nat) :=
  v ← getitem (stats !! key); Ok (<[key := (v + n)%nat]> stats).

(** The event's calendar day, or [None] where the source [continue]s. *)
Definition event_date (event : Event) : option date :=
  match start event with
  | None => None
  | Some s =>
      match dateTime s, date_ s with
      | Some t, _ => Some (date_of t)
      | None, Some d => Some d
      | None, None => None
      end
  end.

Record Archive : Type := mkArchive {
  files : gmap string File;
  stats : gmap string nat;
  gemini_stats : gmap string nat;
  saved : list string
}.

Definition zero_counters : gmap string nat :=
  <["attended" := 0%nat]> (<["rejected" := 0%nat]> (<["unacknowledged" := 0%nat]> ∅)).

(** One iteration of [for event in events] of [save_events_as_native].
    [saved] lists the paths of the [Saved:] messages. *)
Definition save_event (user_email output_dir : string) (drive_client : option DriveClient)
    (a : Archive) (event : Event) : result Archive :=
  match event_date event with
  | None => Ok a
  | Some event_date_ =>
      let attendance_status := get_attendance_status event user_email in
      stats' ← increment attendance_status 1 (stats a);
      let date_str := strftime_ymd event_date_ in
      let event_dir := path_join (path_join output_dir attendance_status) date_str in
      let event_title := get (summary event) "Untitled Event" in
      let file_extension := get_file_extension event in
      let filename := sanitize_filename event_title +:+ file_extension in
      file_path ←
        first_free (files a) event_dir (event_new_filename filename) (bound (files a))
                   (path_join event_dir filename) 1;
      let fs' := <[file_path := EventFile event]> (files a) in
      match drive_client with
      | Some dc =>
          '(fs'', gemini_count) ← download_gemini_notes fs' event dc event_dir;
          gemini_stats' ← increment attendance_status gemini_count (gemini_stats a);
          Ok {| files := fs''; stats := stats'; gemini_stats := gemini_stats';
                saved := saved a ++ [file_path] |}
      | None =>
          Ok {| files := fs'; stats := stats'; gemini_stats := gemini_stats a;
                saved := saved a ++ [file_path] |}
      end
  end.

Fixpoint save_loop (user_email output_dir : string) (drive_client : option DriveClient)
    (a : Archive) (events : list Event) : result Archive :=
  match events with
  | [] => Ok a
  | event :: rest =>
      a' ← save_event user_email output_dir drive_client a event;
      save_loop user_email output_dir drive_client a' rest
  end.

(** [save_events_as_native(events, user_email, output_dir, drive_client)]
    on the file system [fs]. *)
Definition save_events_as_native (fs : gmap string File) (events : list Event)
    (user_email output_dir : string) (drive_client : option DriveClient) : result Archive :=
  save_loop user_email output_dir drive_client
    {| files := fs; stats := zero_counters; gemini_stats := zero_counters; saved := [] |}
    events.

(** [get_date_range(days)], with the clock reading [now] (in UTC) made an
    argument.  The two time stamps are returned as values; the source
    renders them with [isoformat]. *)
Definition get_date_range (now : datetime) (days : Z)
  : overflow (result (datetime * datetime)) :=
  match minus_days now days with
  | OverflowError => OverflowError
  | InRange start =>
      InRange (start ← replace_time start 0 0 0 0;
               end_ ← replace_time now 23 59 59 999999;
               Ok (start, end_))
  end.

End DownloadNotes.

(** ** [wallaby/calendar_client.py] *)

Module CalendarClient.

(** The arguments of [service.events().list(...)]; [singleEvents=True]
    and [orderBy="startTime"] are constant. *)
Record ListRequest : Type := mkListRequest {
  calendarId : string;
  timeMin : string;
  timeMax : string;
  maxResults : Z;
  pageToken : option string
}.

(** The response object. *)
Record EventsResult : Type := mkEventsResult {
  items : option (list Event);
  nextPageToken : option string
}.

Inductive Line : Type :=
| GotSoFar (n : nat)
| GrabbingNext (page_size : Z)
| ErrorOccurred.

(** What [get_events] does to the outside: it executes a list request,
    which answers or raises, and prints progress lines. *)
Variant calendarE : Type -> Type :=
| Execute (request : ListRequest) : calendarE (result EventsResult)
| Print (line : Line) : calendarE unit.

(** One round of [while True]: [inl] goes round again, [inr] leaves the
    loop ([break], or the exception re-raised by the handler). *)
Definition round (calendar_id time_min time_max : string) (page_size : Z)
    (vars : list Event * option string)
  : itree calendarE (list Event * option string + result (list Event)) :=
  let '(events, page_token) := vars in
  ITree.bind
    (ITree.trigger (Execute {| calendarId := calendar_id; timeMin := time_min;
                               timeMax := time_max; maxResults := page_size;
                               pageToken := page_token |}))
    (fun answer =>
       match answer with
       | Raise HttpError =>
           ITree.bind (ITree.trigger (Print ErrorOccurred))
                      (fun _ => Ret (inr (Raise HttpError)))
       | Raise e => Ret (inr (Raise e))
       | Ok events_result =>
           let events := events ++ get (items events_result) [] in
           ITree.bind (ITree.trigger (Print (GotSoFar (length events))))
             (fun _ =>
                match nextPageToken events_result with
                | None => Ret (inr (Ok events))
                | Some page_token =>
                    ITree.bind (ITree.trigger (Print (GrabbingNext page_size)))
                               (fun _ => Ret (inl (events, Some page_token)))
                end)
       end).

(** [get_events(calendar_id, time_min, time_max, page_size)]. *)
Definition get_events (calendar_id time_min time_max : string) (page_size : Z)
  : itree calendarE (result (list Event)) :=
  ITree.iter (round calendar_id time_min time_max page_size) ([], None).

(** A scripted service: it answers the requests from a list of prepared
    answers, whatever they ask, and keeps a record of the requests and of
    the printed lines.  With the script used up it fails. *)
Record World : Type := mkWorld {
  script : list (result EventsResult);
  requests : list ListRequest;
  printed : list Line
}.

Definition serve : forall T, calendarE T -> Monads.stateT World (itree void1) T :=
  fun _ e w =>
    match e with
    | Execute request =>
        match script w with
        | answer :: rest =>
            Ret ({| script := rest; requests := requests w ++ [request];
                    printed := printed w |}, answer)
        | [] =>
            Ret ({| script := []; requests := requests w ++ [request];
                    printed := printed w |}, Raise HttpError)
        end
    | Print line =>
        Ret ({| script := script w; requests := requests w;
                printed := printed w ++ [line] |}, tt)
    end.

(** A run of [get_events] against a script. *)
Definition run (calendar_id time_min time_max : string) (page_size : Z)
    (answers : list (result EventsResult)) : itree void1 (World * result (list Event)) :=
  interp_state serve (get_events calendar_id time_min time_max page_size)
    {| script := answers; requests := []; printed := [] |}.

End CalendarClient.

(** ** The commands: [main] of [wallaby/cli/list_events.py] and of
    [wallaby/cli/download_notes.py] *)

Module Cli.
Import CalendarClient.

(** [list_events.main(months, output)] from the computation of the window
    on, with the clock reading, the validated configuration ([email],
    [page_size]) and the calendar service made arguments.  The lines that
    [main] prints itself are left out. *)
Definition list_events_main (now : datetime) (email : string) (page_size : Z) (months : Z)
  : itree calendarE (result (option ListEvents.Exported)) :=
  match ListEvents.get_date_range now months with
  | Raise e => Ret (Raise e)
  | Ok (time_min, time_max) =>
      ITree.bind
        (get_events "primary" (isoformat time_min) (isoformat time_max) page_size)
        (fun fetched =>
           match fetched with
           | Raise e => Ret (Raise e)
           | Ok [] => Ret (Ok None)
           | Ok events =>
               Ret (exported ← ListEvents.export_events_to_csv events email;
                    Ok (Some exported))
           end)
  end.

(** [download_notes.main(days, output_dir)] from the computation of the
    window on, on the files [fs]. *)
Definition download_notes_main (now : datetime) (email : string) (page_size : Z)
    (fs : gmap string File) (drive_client : DriveClient) (days : Z) (output_dir : string)
  : itree calendarE (overflow (result (option DownloadNotes.Archive))) :=
  match DownloadNotes.get_date_range now days with
  | OverflowError => Ret OverflowError
  | InRange (Raise e) => Ret (InRange (Raise e))
  | InRange (Ok (time_min, time_max)) =>
      ITree.bind
        (get_events "primary" (isoformat time_min) (isoformat time_max) page_size)
        (fun fetched =>
           match fetched with
           | Raise e => Ret (InRange (Raise e))
           | Ok [] => Ret (InRange (Ok None))
           | Ok events =>
               Ret (InRange
                      (archive ← DownloadNotes.save_events_as_native fs events email
                                   output_dir (Some drive_client);
                       Ok (Some archive)))
           end)
  end.

End Cli.

(** ** Sample data *)

Module Samples.

Definition now_2024_02_15 : datetime := mkdatetime 2024 2 15 12 0 0 0 0.
Definition now_2024_01_15 : datetime := mkdatetime 2024 1 15 12 0 0 0 0.

Definition me : string := "user@example.com".

Definition accepted (who : string) : Attendee :=
  {| email := Some who; displayName := None; responseStatus := Some "accepted" |}.

Definition at_ (y m d hh mm : Z) : TimeSpec :=
  {| dateTime := Some (mkdatetime y m d hh mm 0 0 0); date_ := None |}.

Definition all_day (y m d : Z) : TimeSpec :=
  {| dateTime := None; date_ := Some (mkdate y m d) |}.

(** An accepted meeting with two attendees. *)
Definition meeting (name : string) (from to : TimeSpec) : Event :=
  {| summary := Some name; start := Some from; end_ := Some to;
     attendees := Some [accepted me; accepted "other@example.com"];
     creator := Some {| creator_email := Some "other@example.com";
                        creator_displayName := None |};
     attachments := None |}.

Definition standup : Event := meeting "Standup" (at_ 2024 3 4 9 0) (at_ 2024 3 4 9 30).
Definition review : Event := meeting "Review" (at_ 2024 3 4 14 0) (at_ 2024 3 4 14 45).
Definition sync : Event := meeting "Sync" (at_ 2024 3 5 10 0) (at_ 2024 3 5 10 15).
Definition retro : Event := meeting "Retro" (at_ 2024 3 4 16 0) (at_ 2024 3 4 16 20).
Definition offsite : Event := meeting "Offsite" (all_day 2024 3 6) (all_day 2024 3 7).

(** Three meetings in chronological order whose time stamps carry
    different UTC offsets: 00:30+02:00 on 5 March, 23:00+00:00 on 4 March,
    01:30+02:00 on 5 March. *)
Definition in_zone (y m d hh mm offset : Z) : TimeSpec :=
  {| dateTime := Some (mkdatetime y m d hh mm 0 0 offset); date_ := None |}.

Definition call_east : Event :=
  meeting "Call" (in_zone 2024 3 5 0 30 7200) (in_zone 2024 3 5 1 0 7200).
Definition call_utc : Event :=
  meeting "Call" (in_zone 2024 3 4 23 0 0) (in_zone 2024 3 4 23 15 0).
Definition call_east_again : Event :=
  meeting "Call" (in_zone 2024 3 5 1 30 7200) (in_zone 2024 3 5 1 50 7200).

(** An event with a single attendee: not a meeting of the report. *)
Definition focus : Event :=
  {| summary := Some "Focus time"; start := Some (at_ 2024 3 4 11 0);
     end_ := Some (at_ 2024 3 4 12 0); attendees := Some [accepted me];
     creator := Some {| creator_email := Some me; creator_displayName := None |};
     attachments := None |}.

(** An event without [start]. *)
Definition cancelled : Event :=
  {| summary := Some "Cancelled"; start := None; end_ := None;
     attendees := Some [accepted me]; creator := None; attachments := None |}.

End Samples.

(** ** Statements of the specification *)

Module Spec.

(** The start month as the specification's formula gives it. *)
Definition claimed_start_month (now : datetime) (months : Z) : Z :=
  (month now - (months - 1) - 1) mod 12 + 1.




(** The replacement of one character by the sanitiser: the nine
    characters that are invalid in file names and the three control
    characters become an underscore. *)
Definition sanitized_char (c : ascii) : ascii :=
  if char_in c (DownloadNotes.invalid_chars +:+ DownloadNotes.control_chars)
  then "_"%char else c.


(** *** The aggregation, as the specification describes it *)

Import ListEvents.

(** The two tests that select the meetings of the report, as the loop
    evaluates them: [len(event.get('attendees', [])) > 1] and
    [user_email in attendees]. *)
Definition selected (user_email : string) (event : Event) : result bool :=
  if (1 <? length (get (attendees event) []))%nat then
    atts ← getitem (attendees event);
    names ← accepted_attendees atts;
    Ok (bool_decide (user_email ∈ names))
  else Ok false.

Definition is_selected (user_email : string) (e : Event) : bool :=
  match selected user_email e with
  | Ok b => b
  | Raise _ => false
  end.

Definition timed (ts : option TimeSpec) : bool :=
  match ts with
  | Some s => bool_decide (is_Some (dateTime s))
  | None => false
  end.

(** An event the report can process: the accepted attendees have an
    email and, when the event is selected, it has [dateTime] start and
    end, a summary and a creator with an email. *)
Definition admissible (user_email : string) (e : Event) : bool :=
  match selected user_email e with
  | Ok true =>
      timed (start e) && timed (end_ e) && bool_decide (is_Some (summary e)) &&
      match creator e with
      | Some c => bool_decide (is_Some (creator_email c))
      | None => false
      end
  | Ok false => true
  | Raise _ => false
  end.

(** Local start date and duration of a timed event. *)
Definition start_date (e : Event) : option date :=
  s ← start e; t ← dateTime s; Some (date_of t).

Definition duration (e : Event) : option timedelta :=
  s ← start e; t0 ← dateTime s; en ← end_ e; t1 ← dateTime en; Some (sub t1 t0).

Definition meeting_entry (e : Event) : option (string * timedelta) :=
  d ← start_date e; t ← duration e; Some (strftime_ymd d, t).

(** The selected meetings of an input, as (date key, duration) pairs. *)
Definition entries (user_email : string) (events : list Event) : list (string * timedelta) :=
  omap meeting_entry (filter (fun e => is_selected user_email e = true) events).

(** Joining one more accumulator in front of a list of runs: it extends
    the first run when the keys agree. *)
Definition merge (k : string) (s : DailyStat) (rs : list (string * DailyStat))
  : list (string * DailyStat) :=
  match rs with
  | (k', s') :: rest =>
      if String.eqb k k'
      then (k, {| time := time s + time s'; count := count s + count s' |}) :: rest
      else (k, s) :: rs
  | [] => [(k, s)]
  end.

(** The maximal runs of consecutive entries with one date key, each with
    its total duration and its number of meetings. *)
Fixpoint runs (l : list (string * timedelta)) : list (string * DailyStat) :=
  match l with
  | [] => []
  | (k, d) :: rest => merge k {| time := d; count := 1 |} (runs rest)
  end.

(** Storing the runs in order into a mapping: a later run of a date
    replaces an earlier one. *)
Definition store (rs : list (string * DailyStat)) (d : list (string * DailyStat))
  : list (string * DailyStat) :=
  fold_left (fun d r => Dict.setitem r.1 r.2 d) rs d.

Definition total_time (stats : list (string * DailyStat)) : timedelta :=
  foldr (fun r acc => time r.2 + acc) 0 stats.

Definition total_count (stats : list (string * DailyStat)) : nat :=
  foldr (fun r acc => (count r.2 + acc)%nat) 0%nat stats.

(** The order of calendar days. *)
Definition date_lt (a b : date) : Prop :=
  d_year a < d_year b \/
  (d_year a = d_year b /\
   (d_month a < d_month b \/ (d_month a = d_month b /\ d_day a < d_day b))).

Definition date_le (a b : date) : Prop := a = b \/ date_lt a b.

(** The start dates of the selected meetings, in input order. *)
Definition start_dates (user_email : string) (events : list Event) : list date :=
  omap start_date (filter (fun e => is_selected user_email e = true) events).

(** The start time stamps of the selected meetings, in input order. *)
Definition start_time (e : Event) : option datetime := s ← start e; dateTime s.

Definition start_times (user_email : string) (events : list Event) : list datetime :=
  omap start_time (filter (fun e => is_selected user_email e = true) events).

(** Chronological order of time stamps. *)
Definition not_after (a b : datetime) : Prop := instant a <= instant b.

(** The number of distinct date keys. *)
Definition distinct_days (l : list (string * timedelta)) : nat :=
  length (remove_dups l.*1).

(** The accumulator that is open in a loop state, joined to the runs of
    the entries still to come. *)
Definition pending (st : Fold) (rs : list (string * DailyStat)) : list (string * DailyStat) :=
  match current st with
  | Some cur => merge cur {| time := cumulative_time st; count := current_count st |} rs
  | None => rs
  end.

(** Date keys in which a key does not come back once another key has
    followed it. *)
Fixpoint grouped (ks : list string) : Prop :=
  match ks with
  | [] => True
  | k :: rest => (k ∈ rest -> head rest = Some k) /\ grouped rest
  end.

(** The row of [stats.csv] for one day. *)
Definition day_row (r : string * DailyStat) : StatsRow :=
  StatsDay r.1 (time r.2) (count r.2).


(** *** The archive, as the specification describes it *)

(** The paths tried in turn, counted from 0: the computed path first,
    then the names carrying the counters 1, 2, ... *)
Definition candidate (event_dir first : string) (new_name : nat -> string) (n : nat) : string :=
  match n with
  | O => DownloadNotes.path_join event_dir first
  | S _ => DownloadNotes.path_join event_dir (new_name n)
  end.


(** The part of a note's title that is kept in front of the counter: the
    title up to its last dot, the whole title when it has none. *)
Definition note_stem (safe_title : string) : string :=
  match rsplit1 "." safe_title with
  | Some (stem, _) => stem
  | None => safe_title
  end.

Definition outcomes : list string := ["attended"; "rejected"; "unacknowledged"].

(** Counters that have the three outcome keys. *)
Definition counters (m : gmap string nat) : Prop :=
  forall k, k ∈ outcomes -> is_Some (m !! k).

(** The events the archive pipeline files: those with a usable start. *)
Definition archived (events : list Event) : list Event :=
  filter (fun e => is_Some (DownloadNotes.event_date e)) events.

(** The number of archived events of one outcome. *)
Definition tally (user_email outcome : string) (events : list Event) : nat :=
  length (filter (fun e => DownloadNotes.get_attendance_status e user_email = outcome)
                 (archived events)).

(** The directory of an archived event. *)
Definition event_dir (user_email output_dir : string) (e : Event) (d : date) : string :=
  DownloadNotes.path_join
    (DownloadNotes.path_join output_dir (DownloadNotes.get_attendance_status e user_email))
    (strftime_ymd d).

(** The file name computed for an event. *)
Definition event_filename (e : Event) : string :=
  DownloadNotes.sanitize_filename (get (summary e) "Untitled Event") +:+ ".yaml".


Definition last_char (p : string) : option ascii := last (list_ascii_of_string p).


(** *** The paginated fetch, as the specification describes it *)

(** The request of one page. *)
Definition request_with (calendar_id time_min time_max : string) (page_size : Z)
    (page_token : option string) : CalendarClient.ListRequest :=
  {| CalendarClient.calendarId := calendar_id; CalendarClient.timeMin := time_min;
     CalendarClient.timeMax := time_max; CalendarClient.maxResults := page_size;
     CalendarClient.pageToken := page_token |}.

(** The items of a page; a response without [items] has none. *)
Definition items_of (r : CalendarClient.EventsResult) : list Event :=
  get (CalendarClient.items r) [].

End Spec.

(** ** Vocabulary of the further properties *)

Module Vocabulary.
Import ListEvents.

(** The row of [meetings.csv] the report writes for a selected meeting. *)
Definition meeting_row (e : Event) : option MeetingsRow :=
  atts ← attendees e;
  names ← (match accepted_attendees atts with Ok names => Some names | Raise _ => None end);
  s ← start e; start_ ← dateTime s;
  en ← end_ e; end' ← dateTime en;
  summary_ ← summary e;
  c ← creator e; creator_email_ ← creator_email c;
  Some (Meeting (strftime_ymd (date_of start_)) summary_ (sub end' start_) "TBD"
                (get (creator_displayName c) creator_email_)
                (length names) (join ", " names)).

(** The file id under which [download_gemini_notes] asks for an
    attachment: the attachment is a Gemini note and has a non-empty
    [fileId]. *)
Definition downloadable (a : Attachment) : option string :=
  if is_gemini_note a then
    match fileId a with
    | Some (String c id) => Some (String c id)
    | _ => None
    end
  else None.

(** The attachment is asked for and its download completes. *)
Definition completes (dc : DriveClient) (a : Attachment) : bool :=
  match downloadable a with
  | Some file_id =>
      match export_media dc file_id with
      | Completed _ => true
      | _ => false
      end
  | None => false
  end.

(** The attachment is asked for and its download opens the output file. *)
Definition writes (dc : DriveClient) (a : Attachment) : bool :=
  match downloadable a with
  | Some file_id =>
      match export_media dc file_id with
      | Refused => false
      | _ => true
      end
  | None => false
  end.

(** The notes of an event whose download completes, and those whose
    download opens a file; none without a drive client. *)
Definition notes_completed (drive_client : option DriveClient) (e : Event) : nat :=
  match drive_client with
  | Some dc => length (filter (fun a => completes dc a = true) (get (attachments e) []))
  | None => 0
  end.

Definition notes_written (drive_client : option DriveClient) (e : Event) : nat :=
  match drive_client with
  | Some dc => length (filter (fun a => writes dc a = true) (get (attachments e) []))
  | None => 0
  end.

(** The completed notes of the archived events of one outcome. *)
Definition notes_tally (drive_client : option DriveClient) (user_email outcome : string)
    (events : list Event) : nat :=
  sum_list (notes_completed drive_client <$>
              filter (fun e => DownloadNotes.get_attendance_status e user_email = outcome)
                     (Spec.archived events)).

(** The progress lines [get_events] prints for a sequence of answered
    pages, [n] events having been fetched before. *)
Fixpoint progress (page_size : Z) (n : nat) (pages : list CalendarClient.EventsResult)
  : list CalendarClient.Line :=
  match pages with
  | [] => []
  | page :: rest =>
      let n' := (n + length (Spec.items_of page))%nat in
      CalendarClient.GotSoFar n'
      :: match CalendarClient.nextPageToken page with
         | Some _ => CalendarClient.GrabbingNext page_size :: progress page_size n' rest
         | None => []
         end
  end.

End Vocabulary.

(** * Properties *)

(** ** The month window *)

Lemma days_in_month_range (y m : Z) :
  1 <= m <= 12 -> 28 <= days_in_month y m <= 31.
Proof.
  intros Hm.
  assert (m = 1 \/ m = 2 \/ m = 3 \/ m = 4 \/ m = 5 \/ m = 6 \/ m = 7 \/ m = 8
          \/ m = 9 \/ m = 10 \/ m = 11 \/ m = 12) as Hcases by lia.
  unfold days_in_month.
  repeat (destruct Hcases as [-> | Hcases]); try subst m;
    simpl; try destruct (is_leap y); simpl; lia.
Qed.

Lemma check_fields_true (t : datetime) :
  check_fields t = true <->
  (1 <= year t <= 9999) /\ (1 <= month t <= 12) /\
  (1 <= day t <= days_in_month (year t) (month t)) /\
  (0 <= hour t <= 23) /\ (0 <= minute t <= 59) /\ (0 <= second t <= 59) /\
  (0 <= microsecond t <= 999999).
Proof.
  unfold check_fields. rewrite !andb_true_iff, !Z.leb_le. tauto.
Qed.

(** [replace] succeeds exactly when the rebuilt fields pass the checks. *)
Lemma replace_ok (t : datetime) (y m d hh mm ss : option Z) :
  let t' := {| year := get y (year t); month := get m (month t);
               day := get d (day t); hour := get hh (hour t);
               minute := get mm (minute t); second := get ss (second t);
               microsecond := microsecond t; utcoffset := utcoffset t |} in
  check_fields t' = true -> replace t y m d hh mm ss = Ok t'.
Proof. intros t' H. unfold replace. fold t'. now rewrite H. Qed.

(** C2: the wrap rule [12 - (monthoffset - 1)] leaves the current month
    out.  On 15 February 2024 with [months = 3] the window starts on
    1 November 2023, while going back [months - 1] months, the
    specification's [((currentMonth - (months-1) - 1) mod 12) + 1], gives
    December; and with [months = 14] the wrapped month is 0 and the call
    raises [ValueError] instead of returning a window. *)
Theorem get_date_range_not_modular :
  (exists start end_,
      ListEvents.get_date_range Samples.now_2024_02_15 3 = Ok (start, end_) /\
      year start = 2023 /\ month start = 11 /\
      Spec.claimed_start_month Samples.now_2024_02_15 3 = 12 /\
      month start <> Spec.claimed_start_month Samples.now_2024_02_15 3) /\
  ListEvents.get_date_range Samples.now_2024_02_15 14 = Raise ValueError.
Proof.
  split; [| reflexivity].
  eexists _, _. split; [reflexivity |].
  repeat split; try reflexivity. discriminate.
Qed.

(** What [get_date_range] returns for [1 <= months <= 13]: the window
    starts at 00:00:00 on day 1 of the current month minus [months - 1] when
    that does not underflow, and otherwise of month [12 - (months - 2)] of
    the previous year; so the start month is the specification's
    [((currentMonth - (months-1) - 1) mod 12) + 1] when there is no
    underflow or the current month is January.  The year decrements exactly
    on underflow, the window ends at 23:59:59 on the last day of the
    current month, and [months = 1] yields the current month only. *)
Lemma get_date_range_window (now : datetime) (months : Z) :
  check_fields now = true -> 1 < year now -> 1 <= months <= 13 ->
  exists start end_,
    ListEvents.get_date_range now months = Ok (start, end_) /\
    (months - 1 < month now ->
       year start = year now /\ month start = month now - (months - 1)) /\
    (month now <= months - 1 ->
       year start = year now - 1 /\ month start = 12 - (months - 2)) /\
    (months - 1 < month now \/ month now = 1 ->
       month start = Spec.claimed_start_month now months) /\
    (year start = year now - 1 <-> month now - (months - 1) < 1) /\
    (months = 1 -> year start = year now /\ month start = month now) /\
    (day start = 1 /\ hour start = 0 /\ minute start = 0 /\ second start = 0) /\
    (year end_ = year now /\ month end_ = month now /\
     day end_ = days_in_month (year now) (month now) /\
     hour end_ = 23 /\ minute end_ = 59 /\ second end_ = 59).
Proof.
  intros Hnow Hyear Hmonths.
  apply check_fields_true in Hnow as (Hy & Hm & Hd & Hh & Hmi & Hs & Hus).
  pose proof (days_in_month_range (year now) (month now) Hm) as Hdim.
  unfold ListEvents.get_date_range, monthrange.
  replace ((1 <=? month now) && (month now <=? 12)) with true
    by (symmetry; apply andb_true_iff; split; apply Z.leb_le; lia).
  cbn [mbind result_bind snd].
  destruct (0 <? months - 1) eqn:Hoff; [destruct (month now <=? months - 1) eqn:Hwrap |].
  - (* the subtraction underflows: wrap into the previous year *)
    apply Z.ltb_lt in Hoff. apply Z.leb_le in Hwrap.
    pose proof (days_in_month_range (year now - 1) (12 - (months - 1 - 1)) ltac:(lia)).
    rewrite replace_ok by (apply check_fields_true; cbn; lia).
    cbn [mbind result_bind].
    rewrite replace_ok by (apply check_fields_true; cbn; lia).
    eexists _, _. split; [reflexivity |]. cbn.
    unfold Spec.claimed_start_month.
    repeat split; try lia.
    intros [? | H1]; [lia |]. rewrite H1.
    replace (1 - (months - 1) - 1) with ((12 - (months - 1 - 1) - 1) + (-1) * 12) by lia.
    rewrite Z.mod_add by lia. rewrite Z.mod_small; lia.
  - (* no underflow *)
    apply Z.ltb_lt in Hoff. apply Z.leb_gt in Hwrap.
    pose proof (days_in_month_range (year now) (month now - (months - 1)) ltac:(lia)).
    rewrite replace_ok by (apply check_fields_true; cbn; lia).
    cbn [mbind result_bind].
    rewrite replace_ok by (apply check_fields_true; cbn; lia).
    eexists _, _. split; [reflexivity |]. cbn.
    unfold Spec.claimed_start_month.
    repeat split; try lia.
    intros _. rewrite Z.mod_small; lia.
  - (* months = 1 *)
    apply Z.ltb_ge in Hoff.
    rewrite replace_ok by (apply check_fields_true; cbn; lia).
    cbn [mbind result_bind].
    rewrite replace_ok by (apply check_fields_true; cbn; lia).
    eexists _, _. split; [reflexivity |]. cbn.
    unfold Spec.claimed_start_month.
    repeat split; try lia.
    intros _. rewrite Z.mod_small; lia.
Qed.

Example get_date_range_window_january :
  exists start end_,
    ListEvents.get_date_range Samples.now_2024_01_15 3 = Ok (start, end_) /\
    year start = 2023 /\ month start = 11 /\ day end_ = 31.
Proof.
  destruct (get_date_range_window Samples.now_2024_01_15 3)
    as (start & end_ & Hrun & _ & Hwrap & _ & _ & _ & _ & Hend);
    [reflexivity | reflexivity | lia |].
  exists start, end_. split; [exact Hrun |].
  destruct Hwrap as [Hy Hm]; [cbn; lia |].
  destruct Hend as (_ & _ & Hd & _).
  repeat split; [exact Hy | exact Hm | exact Hd].
Qed.

(** Where the wrap rule and the specification's formula part: whenever
    the subtraction underflows in a month other than January. *)
Lemma get_date_range_wrap_off (now : datetime) (months : Z) :
  check_fields now = true -> 1 < year now -> 1 <= months <= 13 ->
  month now <= months - 1 -> month now <> 1 ->
  exists start end_,
    ListEvents.get_date_range now months = Ok (start, end_) /\
    month start = 14 - months /\
    Spec.claimed_start_month now months = month now + 13 - months /\
    month start <> Spec.claimed_start_month now months.
Proof.
  intros Hnow Hyear Hmonths Hwrap Hjan.
  destruct (get_date_range_window now months Hnow Hyear Hmonths)
    as (start & end_ & Hrun & _ & Hstart & _).
  destruct (Hstart Hwrap) as [_ Hmonth].
  apply check_fields_true in Hnow as (_ & Hm & _).
  assert (Spec.claimed_start_month now months = month now + 13 - months) as Hclaimed.
  { unfold Spec.claimed_start_month.
    replace (month now - (months - 1) - 1) with ((month now + 12 - months) + (-1) * 12) by lia.
    rewrite Z.mod_add by lia. rewrite Z.mod_small; lia. }
  exists start, end_. repeat split; [exact Hrun | lia | exact Hclaimed | lia].
Qed.

(** ** The filename sanitiser *)

Section Strings.

Lemma chars_of_app (s1 s2 : string) :
  list_ascii_of_string (s1 +:+ s2) = list_ascii_of_string s1 ++ list_ascii_of_string s2.
Proof. induction s1 as [| c s1 IH]; [done |]. cbn. now rewrite <- IH. Qed.

Lemma chars_of_length (s : string) : String.length s = length (list_ascii_of_string s).
Proof. induction s as [| c s IH]; [done |]. cbn. now rewrite IH. Qed.

Lemma char_in_app (c : ascii) (s1 s2 : string) :
  char_in c (s1 +:+ s2) = char_in c s1 || char_in c s2.
Proof.
  induction s1 as [| a s1 IH]; [done |].
  change (String a s1 +:+ s2) with (String a (s1 +:+ s2)).
  cbn. rewrite IH. now rewrite orb_assoc.
Qed.

(** A character-class substitution by one character is a map. *)
Lemma chars_of_re_sub_class (chars : string) (r : ascii) (s : string) :
  list_ascii_of_string (re_sub_class chars (String r EmptyString) s)
  = (fun c => if char_in c chars then r else c) <$> list_ascii_of_string s.
Proof.
  induction s as [| c s IH]; [done |].
  cbn [re_sub_class]. destruct (char_in c chars) eqn:Hc.
  - change (String r EmptyString +:+ ?x) with (String r x).
    cbn. now rewrite IH, Hc.
  - cbn. now rewrite IH, Hc.
Qed.

Lemma chars_of_slice_to (n : nat) (s : string) :
  list_ascii_of_string (slice_to n s) = take n (list_ascii_of_string s).
Proof.
  revert s. induction n as [| n IH]; intros [| c s]; try done.
  cbn. now rewrite IH.
Qed.

(** [rstrip] removes a block of characters of the set at the end, and
    what it keeps does not end with one. *)
Lemma rstrip_spec (chars s : string) :
  exists dropped,
    list_ascii_of_string s = list_ascii_of_string (rstrip chars s) ++ dropped /\
    Forall (fun c => char_in c chars = true) dropped /\
    (forall c, last (list_ascii_of_string (rstrip chars s)) = Some c -> char_in c chars = false).
Proof.
  induction s as [| c s (dropped & Heq & Hall & Hlast)].
  - exists []. repeat split; [constructor | intros ? [=]].
  - cbn [rstrip]. destruct (rstrip chars s) as [| a kept] eqn:Hkept.
    + destruct (char_in c chars) eqn:Hc.
      * exists (c :: dropped). cbn in *. rewrite Heq.
        repeat split; [constructor; assumption | intros ? [=]].
      * exists dropped. cbn in *. rewrite Heq.
        repeat split; [assumption | intros ? [= <-]; assumption].
    + exists dropped. cbn in *. rewrite Heq.
      repeat split; [assumption |].
      intros c' Hc'. apply Hlast. exact Hc'.
Qed.

End Strings.

(** The two substitutions of [sanitize_filename] together replace each
    character by its [sanitized_char]. *)
Lemma sanitize_substitutions (s : string) :
  list_ascii_of_string
    (re_sub_class DownloadNotes.control_chars "_"
       (re_sub_class DownloadNotes.invalid_chars "_" s))
  = Spec.sanitized_char <$> list_ascii_of_string s.
Proof.
  rewrite !chars_of_re_sub_class, <- list_fmap_compose.
  apply list_fmap_ext. intros _ c _.
  unfold compose, Spec.sanitized_char. rewrite char_in_app.
  destruct (char_in c DownloadNotes.invalid_chars); [reflexivity |].
  now destruct (char_in c DownloadNotes.control_chars).
Qed.


(** ** The attendance classifier *)





(** ** The aggregation fold *)

Section Aggregation.
Import ListEvents Spec.

Variable user_email : string.

(** An event that is not selected leaves the loop variables as they are. *)
Lemma body_not_selected (st : Fold) (e : Event) :
  admissible user_email e = true -> is_selected user_email e = false ->
  body user_email st e = Ok st.
Proof.
  unfold admissible, is_selected, selected, body.
  destruct (1 <? length (get (attendees e) []))%nat; [| reflexivity].
  destruct (getitem (attendees e)) as [atts |]; cbn [mbind result_bind]; [| discriminate].
  destruct (accepted_attendees atts) as [names |]; cbn [mbind result_bind]; [| discriminate].
  destruct (bool_decide (user_email ∈ names)); [discriminate | reflexivity].
Qed.

(** A selected event is accumulated under its date key and written to
    [meetings.csv]. *)
Lemma body_selected (st : Fold) (e : Event) :
  admissible user_email e = true -> is_selected user_email e = true ->
  exists k d row,
    meeting_entry e = Some (k, d) /\
    body user_email st e
    = Ok {| total := S (total st);
            stats := match current st with
                     | Some cur =>
                         if String.eqb cur k then stats st
                         else Dict.setitem cur {| time := cumulative_time st;
                                                  count := current_count st |} (stats st)
                     | None => stats st
                     end;
            current := Some k;
            cumulative_time := match current st with
                               | Some cur =>
                                   if String.eqb cur k then cumulative_time st + d else d
                               | None => d
                               end;
            current_count := match current st with
                             | Some cur =>
                                 if String.eqb cur k then S (current_count st) else 1%nat
                             | None => S (current_count st)
                             end;
            rows := rows st ++ [row] |}.
Proof.
  unfold admissible, is_selected, selected, body, meeting_entry, start_date, duration, timed.
  destruct (1 <? length (get (attendees e) []))%nat; [| discriminate].
  destruct (getitem (attendees e)) as [atts |]; cbn [mbind result_bind]; [| discriminate].
  destruct (accepted_attendees atts) as [names |]; cbn [mbind result_bind]; [| discriminate].
  destruct (bool_decide (user_email ∈ names)); [| discriminate].
  intros Hadm _.
  destruct (start e) as [s |]; [| discriminate].
  cbn -[strftime_ymd sub String.eqb].
  destruct (dateTime s) as [t0 |]; [| cbn in Hadm; discriminate].
  destruct (end_ e) as [en |]; [| cbn in Hadm; discriminate].
  cbn -[strftime_ymd sub String.eqb].
  destruct (dateTime en) as [t1 |]; [| cbn in Hadm; discriminate].
  destruct (summary e) as [sm |]; [| cbn in Hadm; discriminate].
  destruct (creator e) as [c |]; [| cbn in Hadm; discriminate].
  cbn -[strftime_ymd sub String.eqb].
  destruct (creator_email c) as [ce |]; [| cbn in Hadm; discriminate].
  cbn -[strftime_ymd sub String.eqb].
  eexists _, _, _. split; [reflexivity |].
  destruct (current st) as [cur |]; [| reflexivity].
  destruct (String.eqb_spec cur (strftime_ymd (date_of t0))) as [-> | _]; reflexivity.
Qed.

Lemma entries_cons (e : Event) (events : list Event) :
  entries user_email (e :: events)
  = (if is_selected user_email e
     then match meeting_entry e with Some x => [x] | None => [] end
     else []) ++ entries user_email events.
Proof.
  unfold entries. rewrite filter_cons.
  destruct (is_selected user_email e); case_decide; try done.
  cbn. now destruct (meeting_entry e).
Qed.

Lemma merge_merge (k : string) (s1 s2 : DailyStat) (rs : list (string * DailyStat)) :
  merge k s1 (merge k s2 rs)
  = merge k {| time := time s1 + time s2; count := count s1 + count s2 |} rs.
Proof.
  destruct rs as [| [k' s'] rest]; cbn.
  - now rewrite String.eqb_refl.
  - destruct (String.eqb k k') eqn:Hk; cbn; rewrite ?String.eqb_refl, ?Hk; [| reflexivity].
    cbn. do 2 f_equal. f_equal; lia.
Qed.

Lemma merge_other (k k' : string) (s s' : DailyStat) (rs : list (string * DailyStat)) :
  String.eqb k k' = false ->
  merge k s (merge k' s' rs) = (k, s) :: merge k' s' rs.
Proof.
  intros Hk. destruct rs as [| [k2 s2] rest]; cbn.
  - now rewrite Hk.
  - destruct (String.eqb k' k2); cbn; now rewrite Hk.
Qed.

(** The loop runs to its end on admissible events; sealing its last
    state stores the runs of the entries, after the open accumulator, into
    the statistics it started with. *)
Lemma loop_runs (events : list Event) :
  Forall (fun e => admissible user_email e = true) events ->
  forall st : Fold,
    (current st = None -> current_count st = 0%nat) ->
    exists st',
      loop user_email st events = Ok st' /\
      seal st' = store (pending st (runs (entries user_email events))) (stats st) /\
      total st' = (total st + length (entries user_email events))%nat /\
      exists meetings,
        rows st' = rows st ++ meetings /\
        length meetings = length (entries user_email events).
Proof.
  induction 1 as [| e events Hadm _ IH]; intros st Hcount.
  - exists st. cbn. repeat split; try lia.
    + unfold seal, pending, store. now destruct (current st).
    + exists []. now rewrite app_nil_r.
  - cbn [loop]. rewrite entries_cons.
    destruct (is_selected user_email e) eqn:Hsel.
    + destruct (body_selected st e Hadm Hsel) as (k & d & row & Hentry & ->).
      rewrite Hentry. cbn [mbind result_bind app].
      match goal with |- context [loop _ ?st1 _] =>
        destruct (IH st1) as (st' & Hloop & Hseal & Htotal & meetings & Hrows & Hlen);
          [discriminate |]
      end.
      exists st'. split; [exact Hloop |]. split; [| split].
      * rewrite Hseal. unfold pending. cbn [current cumulative_time current_count stats runs].
        set (rs := runs (entries user_email events)).
        destruct (current st) as [cur |] eqn:Hcur.
        -- destruct (String.eqb_spec cur k) as [-> | Hne].
           ++ rewrite merge_merge. cbn. now rewrite Nat.add_1_r.
           ++ rewrite merge_other by (now apply String.eqb_neq). reflexivity.
        -- now rewrite Hcount.
      * rewrite Htotal. cbn. lia.
      * exists (row :: meetings). cbn [rows] in Hrows. rewrite Hrows, <- app_assoc.
        split; [reflexivity | cbn; lia].
    + rewrite (body_not_selected st e Hadm Hsel). cbn [mbind result_bind app].
      apply IH, Hcount.
Qed.

(** The daily statistics are the runs of the selected meetings, stored
    in input order. *)
Lemma daily_stats_runs (events : list Event) :
  Forall (fun e => admissible user_email e = true) events ->
  daily_stats events user_email = Ok (store (runs (entries user_email events)) []).
Proof.
  intros Hadm. unfold daily_stats.
  destruct (loop_runs events Hadm initial) as (st' & -> & Hseal & _); [reflexivity |].
  cbn. now rewrite Hseal.
Qed.

End Aggregation.

(** ** The mapping of daily statistics *)

Section Mapping.
Import ListEvents Spec.

Lemma setitem_lookup (k k' : string) (v : DailyStat) (d : list (string * DailyStat)) :
  Dict.lookup k (Dict.setitem k' v d)
  = if String.eqb k' k then Some v else Dict.lookup k d.
Proof.
  induction d as [| [k0 v0] d IH]; cbn.
  - reflexivity.
  - destruct (String.eqb_spec k0 k') as [-> | Hne]; cbn.
    + destruct (String.eqb k' k); reflexivity.
    + rewrite IH. destruct (String.eqb_spec k0 k) as [-> | _]; [| reflexivity].
      destruct (String.eqb_spec k' k) as [-> | _]; [congruence | reflexivity].
Qed.

Lemma setitem_keys (k : string) (v : DailyStat) (d : list (string * DailyStat)) :
  Dict.keys (Dict.setitem k v d)
  = if bool_decide (k ∈ Dict.keys d) then Dict.keys d else Dict.keys d ++ [k].
Proof.
  unfold Dict.keys. induction d as [| [k0 v0] d IH]; cbn; [reflexivity |].
  destruct (String.eqb_spec k0 k) as [-> | Hne]; cbn.
  - rewrite bool_decide_eq_true_2 by set_solver. reflexivity.
  - rewrite IH. case_bool_decide as Hin.
    + rewrite bool_decide_eq_true_2 by set_solver. reflexivity.
    + rewrite bool_decide_eq_false_2 by set_solver. reflexivity.
Qed.

Lemma setitem_fresh (k : string) (v : DailyStat) (d : list (string * DailyStat)) :
  k ∉ Dict.keys d -> Dict.setitem k v d = d ++ [(k, v)].
Proof.
  unfold Dict.keys. induction d as [| [k0 v0] d IH]; cbn; intros Hk; [reflexivity |].
  destruct (String.eqb_spec k0 k) as [-> | Hne]; [set_solver |].
  rewrite IH by set_solver. reflexivity.
Qed.

Lemma setitem_NoDup (k : string) (v : DailyStat) (d : list (string * DailyStat)) :
  NoDup (Dict.keys d) -> NoDup (Dict.keys (Dict.setitem k v d)).
Proof.
  intros Hd. rewrite setitem_keys. case_bool_decide as Hin; [exact Hd |].
  apply NoDup_app. repeat split; [exact Hd | set_solver | apply NoDup_singleton].
Qed.

(** A mapping has one entry per key, whatever is stored into it. *)
Lemma store_NoDup (rs d : list (string * DailyStat)) :
  NoDup (Dict.keys d) -> NoDup (Dict.keys (store rs d)).
Proof.
  revert d. induction rs as [| r rs IH]; intros d Hd; [exact Hd |].
  cbn. apply IH, setitem_NoDup, Hd.
Qed.

(** In the stored mapping a key holds the last run stored under it. *)
Lemma store_lookup (k : string) (rs d : list (string * DailyStat)) :
  Dict.lookup k (store rs d)
  = match last (filter (fun r => r.1 = k) rs) with
    | Some r => Some r.2
    | None => Dict.lookup k d
    end.
Proof.
  revert d. induction rs as [| r rs IH]; intros d; [reflexivity |].
  cbn [store fold_left]. fold (store rs (Dict.setitem r.1 r.2 d)).
  rewrite IH, filter_cons, setitem_lookup.
  destruct (String.eqb_spec r.1 k) as [Hk | Hk].
  - rewrite decide_True by exact Hk.
    destruct (filter (fun r0 => r0.1 = k) rs) as [| r' rest] eqn:Hf; [reflexivity |].
    rewrite last_cons_cons.
    destruct (last (r' :: rest)) eqn:Hlast; [reflexivity |].
    apply last_None in Hlast. discriminate.
  - rewrite decide_False by exact Hk. reflexivity.
Qed.

Lemma store_keys (k : string) (rs d : list (string * DailyStat)) :
  k ∈ Dict.keys (store rs d) <-> k ∈ rs.*1 \/ k ∈ Dict.keys d.
Proof.
  revert d. induction rs as [| r rs IH]; intros d; [set_solver |].
  cbn [store fold_left]. fold (store rs (Dict.setitem r.1 r.2 d)).
  rewrite IH, setitem_keys. case_bool_decide; set_solver.
Qed.

(** Runs with pairwise different keys are stored one after the other. *)
Lemma store_distinct (rs d : list (string * DailyStat)) :
  NoDup (Dict.keys d ++ rs.*1) -> store rs d = d ++ rs.
Proof.
  revert d. induction rs as [| r rs IH]; intros d Hnd.
  - now rewrite app_nil_r.
  - cbn [store fold_left]. fold (store rs (Dict.setitem r.1 r.2 d)).
    cbn in Hnd. apply NoDup_app in Hnd as (Hd & Hdis & Hrs).
    apply NoDup_cons in Hrs as [Hr Hrs].
    rewrite setitem_fresh by (intros Hin; apply (Hdis _ Hin); set_solver).
    rewrite IH.
    + rewrite <- app_assoc. now destruct r.
    + unfold Dict.keys. rewrite map_app. cbn. rewrite <- app_assoc. cbn.
      apply NoDup_app. repeat split; [exact Hd | | now apply NoDup_cons].
      intros x Hx. exact (Hdis x Hx).
Qed.

Lemma merge_keys (k : string) (s : DailyStat) (rs : list (string * DailyStat)) :
  (merge k s rs).*1 = if bool_decide (head rs.*1 = Some k) then rs.*1 else k :: rs.*1.
Proof.
  destruct rs as [| [k' s'] rest]; cbn; [reflexivity |].
  destruct (String.eqb_spec k k') as [-> | Hne]; cbn.
  - now rewrite bool_decide_eq_true_2.
  - rewrite bool_decide_eq_false_2 by congruence. reflexivity.
Qed.

Lemma runs_head (l : list (string * timedelta)) : head (runs l).*1 = head l.*1.
Proof.
  destruct l as [| [k d] l]; [reflexivity |].
  cbn [runs]. rewrite merge_keys. case_bool_decide as Hh; [exact Hh | reflexivity].
Qed.

Lemma runs_keys (k : string) (l : list (string * timedelta)) :
  k ∈ (runs l).*1 <-> k ∈ l.*1.
Proof.
  induction l as [| [k0 d] l IH]; [reflexivity |].
  cbn [runs]. rewrite merge_keys. cbn. case_bool_decide as Hh.
  - apply head_Some_elem_of in Hh. set_solver.
  - set_solver.
Qed.

(** The runs of grouped entries have pairwise different keys. *)
Lemma runs_NoDup (l : list (string * timedelta)) :
  grouped l.*1 -> NoDup (runs l).*1.
Proof.
  induction l as [| [k d] l IH]; [intros _; constructor |].
  cbn. intros [Hback Hgrouped]. rewrite merge_keys.
  case_bool_decide as Hh; [now apply IH |].
  apply NoDup_cons. split; [| now apply IH].
  intros Hin. apply runs_keys in Hin. apply Hh.
  rewrite runs_head. now apply Hback.
Qed.

Lemma merge_totals (k : string) (s : DailyStat) (rs : list (string * DailyStat)) :
  total_time (merge k s rs) = time s + total_time rs /\
  total_count (merge k s rs) = (count s + total_count rs)%nat.
Proof.
  destruct rs as [| [k' s'] rest]; cbn; [split; reflexivity |].
  destruct (String.eqb k k'); cbn; split; lia.
Qed.

(** The runs keep every meeting and every minute. *)
Lemma runs_totals (l : list (string * timedelta)) :
  total_time (runs l) = foldr Z.add 0 l.*2 /\ total_count (runs l) = length l.
Proof.
  induction l as [| [k d] l [IHt IHc]]; [split; reflexivity |].
  cbn [runs]. destruct (merge_totals k {| time := d; count := 1 |} (runs l)) as [-> ->].
  cbn. rewrite IHt, IHc. split; reflexivity.
Qed.

(** With pairwise different keys there are as many runs as distinct days. *)
Lemma runs_length (l : list (string * timedelta)) :
  NoDup (runs l).*1 -> length (runs l) = distinct_days l.
Proof.
  intros Hnd. unfold distinct_days.
  rewrite <- (length_fmap fst (runs l)).
  apply Permutation_length, NoDup_Permutation;
    [exact Hnd | apply NoDup_remove_dups |].
  intros k. rewrite runs_keys, elem_of_remove_dups. reflexivity.
Qed.

Lemma day_rows_spec (stats : list (string * DailyStat))
    (written : list StatsRow) (t : timedelta) (c : nat) :
  day_rows stats (written, t, c)
  = (written ++ (day_row <$> stats), t + total_time stats, (c + total_count stats)%nat).
Proof.
  revert written t c. induction stats as [| [day s] stats IH]; intros written t c; cbn.
  - rewrite app_nil_r. f_equal; [f_equal |]; lia.
  - rewrite IH. rewrite <- app_assoc. unfold total_time, total_count. cbn.
    f_equal; [f_equal |]; lia.
Qed.

(** The rows of [stats.csv]: the header, one row per entry of the
    mapping, and the averages when the mapping is not empty. *)
Lemma export_stats_to_csv_rows (stats : list (string * DailyStat)) :
  export_stats_to_csv stats
  = StatsHeader :: (day_row <$> stats)
    ++ match stats with
       | [] => []
       | _ => [StatsAverages (average_time (total_time stats) (length stats))
                             (average_count (total_count stats) (length stats))]
       end.
Proof.
  unfold export_stats_to_csv. rewrite day_rows_spec.
  destruct stats as [| r stats]; [reflexivity |].
  cbn [length Nat.ltb Nat.leb]. cbn -[average_time average_count total_time total_count].
  reflexivity.
Qed.

End Mapping.

(** ** Date keys *)

Lemma digit_inj (a b : Z) :
  0 <= a < 10 -> 0 <= b < 10 -> digit a = digit b -> a = b.
Proof.
  intros Ha Hb Heq. unfold digit in Heq.
  apply (f_equal nat_of_ascii) in Heq.
  rewrite !nat_ascii_embedding in Heq by lia. lia.
Qed.

(** On valid dates the key [%Y-%m-%d] determines the date. *)
Lemma strftime_ymd_inj (d1 d2 : date) :
  valid_date d1 -> valid_date d2 -> strftime_ymd d1 = strftime_ymd d2 -> d1 = d2.
Proof.
  destruct d1 as [y1 m1 a1], d2 as [y2 m2 a2].
  unfold valid_date. cbn [d_year d_month d_day].
  intros (Hy1 & Hm1 & Ha1) (Hy2 & Hm2 & Ha2) Heq.
  pose proof (days_in_month_range y1 m1 Hm1).
  pose proof (days_in_month_range y2 m2 Hm2).
  change (strftime_ymd (mkdate y1 m1 a1)) with
    (String (digit (y1 / 1000)) (String (digit (y1 / 100 mod 10))
      (String (digit (y1 / 10 mod 10)) (String (digit (y1 mod 10))
        (String "-" (String (digit (m1 / 10)) (String (digit (m1 mod 10))
          (String "-" (String (digit (a1 / 10)) (String (digit (a1 mod 10))
            EmptyString)))))))))) in Heq.
  change (strftime_ymd (mkdate y2 m2 a2)) with
    (String (digit (y2 / 1000)) (String (digit (y2 / 100 mod 10))
      (String (digit (y2 / 10 mod 10)) (String (digit (y2 mod 10))
        (String "-" (String (digit (m2 / 10)) (String (digit (m2 mod 10))
          (String "-" (String (digit (a2 / 10)) (String (digit (a2 mod 10))
            EmptyString)))))))))) in Heq.
  injection Heq as Hy3 Hy2' Hy1' Hy0 Hm1' Hm0 Ha1' Ha0.
  apply digit_inj in Hy3, Hy2', Hy1', Hy0, Hm1', Hm0, Ha1', Ha0;
    try (Z.div_mod_to_equations; lia).
  f_equal; Z.div_mod_to_equations; lia.
Qed.

Lemma date_le_antisym (a b : date) : Spec.date_le a b -> Spec.date_le b a -> a = b.
Proof.
  unfold Spec.date_le, Spec.date_lt. intros [-> | Hab] [Hba | Hba]; try done. lia.
Qed.

(** Dates that never decrease give grouped keys. *)
Lemma sorted_grouped (ds : list date) :
  Forall valid_date ds -> StronglySorted Spec.date_le ds ->
  Spec.grouped (strftime_ymd <$> ds).
Proof.
  induction ds as [| d rest IH]; [done |].
  intros Hvalid Hsorted.
  apply Forall_cons in Hvalid as [Hd Hrest].
  apply StronglySorted_cons in Hsorted as [Hle Hsorted].
  split; [| now apply IH].
  intros Hin. apply list_elem_of_fmap in Hin as (d' & Hkey & Hd').
  assert (d' = d) as ->.
  { apply strftime_ymd_inj; [| exact Hd | now symmetry].
    rewrite Forall_forall in Hrest. now apply Hrest. }
  destruct rest as [| d1 rest']; [set_solver |].
  cbn. do 2 f_equal.
  apply date_le_antisym.
  - apply elem_of_cons in Hd' as [-> | Hd']; [now left |].
    apply StronglySorted_cons in Hsorted as [Hle1 _].
    rewrite Forall_forall in Hle1. now apply Hle1.
  - apply Forall_cons in Hle as [Hle _]. exact Hle.
Qed.

(** ** Chronological order and calendar days *)

Lemma month_cases (m : Z) :
  1 <= m <= 12 ->
  m = 1 \/ m = 2 \/ m = 3 \/ m = 4 \/ m = 5 \/ m = 6 \/ m = 7 \/ m = 8
  \/ m = 9 \/ m = 10 \/ m = 11 \/ m = 12.
Proof. lia. Qed.

Lemma day_of_year_bounds (y m d : Z) :
  1 <= m <= 12 -> 1 <= d <= days_in_month y m ->
  1 <= days_before_month y m + d <= 365 + (if is_leap y then 1 else 0).
Proof.
  intros Hm Hd. apply month_cases in Hm.
  unfold days_before_month, days_in_month in *.
  destruct (is_leap y);
    repeat (destruct Hm as [-> | Hm]); try subst m; cbn -[Z.add] in *; lia.
Qed.

Lemma days_before_month_mono (y m m' d : Z) :
  1 <= m -> m < m' -> m' <= 12 -> 1 <= d <= days_in_month y m ->
  days_before_month y m + d <= days_before_month y m'.
Proof.
  intros H1 Hlt H12 Hd.
  assert (1 <= m <= 12) as Hm by lia. assert (1 <= m' <= 12) as Hm' by lia.
  apply month_cases in Hm, Hm'.
  unfold days_before_month, days_in_month in *.
  destruct (is_leap y);
    repeat (destruct Hm as [-> | Hm]); try subst m;
    repeat (destruct Hm' as [-> | Hm']); try subst m'; try lia; cbn -[Z.add] in *; lia.
Qed.

(** A year has 365 days, and one more when it is a leap year. *)
Lemma days_before_year_step (y y' : Z) :
  y < y' ->
  days_before_year y + 365 + (if is_leap y then 1 else 0) <= days_before_year y'.
Proof.
  unfold days_before_year, is_leap. intros Hlt. cbn zeta.
  destruct (Z.eqb_spec (y mod 4) 0), (Z.eqb_spec (y mod 100) 0), (Z.eqb_spec (y mod 400) 0);
    cbn [andb orb negb]; Z.div_mod_to_equations; lia.
Qed.

(** The ordinal of a date grows with the date. *)
Lemma toordinal_lt (a b : date) :
  valid_date a -> valid_date b -> Spec.date_lt a b -> toordinal a < toordinal b.
Proof.
  destruct a as [y m d], b as [y' m' d'].
  unfold valid_date, Spec.date_lt, toordinal, ymd2ord. cbn [d_year d_month d_day].
  intros (_ & Hm & Hd) (_ & Hm' & Hd') [Hy | [-> [Hmm | [-> Hdd]]]].
  - pose proof (day_of_year_bounds y m d Hm Hd).
    pose proof (day_of_year_bounds y' m' d' Hm' Hd').
    pose proof (days_before_year_step y y' Hy). lia.
  - pose proof (days_before_month_mono y' m m' d ltac:(lia) Hmm ltac:(lia) Hd). lia.
  - lia.
Qed.

Lemma date_le_total (a b : date) : Spec.date_le a b \/ Spec.date_lt b a.
Proof.
  destruct a as [y m d], b as [y' m' d'].
  unfold Spec.date_le, Spec.date_lt. cbn [d_year d_month d_day].
  destruct (Z.lt_trichotomy y y') as [? | [-> | ?]].
  - left. right. now left.
  - destruct (Z.lt_trichotomy m m') as [? | [-> | ?]].
    + left. right. right. split; [reflexivity | now left].
    + destruct (Z.lt_trichotomy d d') as [? | [-> | ?]].
      * left. right. right. split; [reflexivity |]. right. now split.
      * left. now left.
      * right. right. split; [reflexivity |]. right. now split.
    + right. right. split; [reflexivity | now left].
  - right. now left.
Qed.

Lemma check_fields_valid_date (t : datetime) :
  check_fields t = true -> valid_date (date_of t).
Proof.
  intros (Hy & Hm & Hd & _)%check_fields_true. unfold valid_date. cbn. tauto.
Qed.

(** Of two time stamps with one UTC offset, the earlier has the earlier
    or the same calendar day. *)
Lemma not_after_date_le (a b : datetime) :
  check_fields a = true -> check_fields b = true -> utcoffset a = utcoffset b ->
  Spec.not_after a b -> Spec.date_le (date_of a) (date_of b).
Proof.
  intros Ha Hb Hoff Hle.
  destruct (date_le_total (date_of a) (date_of b)) as [Hdone | Hlt]; [exact Hdone |].
  exfalso.
  apply toordinal_lt in Hlt; [| now apply check_fields_valid_date ..].
  apply check_fields_true in Ha as (_ & _ & _ & Hh & Hmi & Hs & Hus).
  apply check_fields_true in Hb as (_ & _ & _ & Hh' & Hmi' & Hs' & Hus').
  unfold Spec.not_after, instant in Hle. unfold toordinal in Hlt.
  cbn [date_of d_year d_month d_day] in Hlt. rewrite Hoff in Hle. lia.
Qed.

Section Sorted.
Import ListEvents Spec.

Variable user_email : string.

(** A selected admissible meeting has a start date and a duration. *)
Lemma admissible_entry (e : Event) :
  admissible user_email e = true -> is_selected user_email e = true ->
  exists d t, start_date e = Some d /\ meeting_entry e = Some (strftime_ymd d, t).
Proof.
  unfold admissible, is_selected, meeting_entry, start_date, duration, timed.
  destruct (selected user_email e) as [[|] |]; try discriminate.
  intros Hadm _.
  destruct (start e) as [s |]; [| discriminate].
  cbn -[strftime_ymd] in *.
  destruct (dateTime s) as [t0 |]; [| cbn in Hadm; discriminate].
  destruct (end_ e) as [en |]; [| cbn in Hadm; discriminate].
  cbn -[strftime_ymd] in *.
  destruct (dateTime en) as [t1 |]; [| cbn in Hadm; discriminate].
  eexists _, _. split; reflexivity.
Qed.

Lemma entries_keys (events : list Event) :
  Forall (fun e => admissible user_email e = true) events ->
  (entries user_email events).*1 = strftime_ymd <$> start_dates user_email events /\
  length (entries user_email events)
  = length (filter (fun e => is_selected user_email e = true) events).
Proof.
  unfold entries, start_dates.
  induction 1 as [| e events Hadm _ [IHk IHl]]; [split; reflexivity |].
  rewrite filter_cons. case_decide as Hsel; [| split; assumption].
  destruct (admissible_entry e Hadm Hsel) as (d & t & Hd & Hentry).
  cbn [omap list_omap]. rewrite Hd, Hentry. cbn [fmap list_fmap length].
  rewrite <- IHk, <- IHl. split; reflexivity.
Qed.

(** The report of [wallaby] on an input in ascending start order: with
    the selected meetings' start dates never decreasing, the daily
    statistics have one entry per distinct date, in input order; their
    counts add up to the number [k] of selected meetings and their
    durations to the meetings' total duration; [stats.csv] ends, when
    there is a meeting, with the averages [total // d] (in whole seconds)
    and [k / d] over the [d] distinct dates. *)
Theorem export_events_to_csv_sorted (events : list Event) :
  Forall (fun e => admissible user_email e = true) events ->
  Forall valid_date (start_dates user_email events) ->
  StronglySorted date_le (start_dates user_email events) ->
  let l := entries user_email events in
  let k := length (filter (fun e => is_selected user_email e = true) events) in
  let d := distinct_days l in
  exists stats out,
    daily_stats events user_email = Ok stats /\
    export_events_to_csv events user_email = Ok out /\
    stats = runs l /\
    length stats = d /\
    NoDup (Dict.keys stats) /\
    total_count stats = k /\
    total_time stats = foldr Z.add 0 l.*2 /\
    written out = k /\
    length (meetings_csv out) = S k /\
    stats_csv out
    = StatsHeader :: (day_row <$> stats)
      ++ match stats with
         | [] => []
         | _ => [StatsAverages (average_time (foldr Z.add 0 l.*2) d) (average_count k d)]
         end.
Proof.
  intros Hadm Hvalid Hsorted l k d.
  destruct (entries_keys events Hadm) as [Hkeys Hlen]. fold l in Hkeys, Hlen. fold k in Hlen.
  assert (NoDup (runs l).*1) as Hnd.
  { apply runs_NoDup. rewrite Hkeys. now apply sorted_grouped. }
  assert (store (runs l) [] = runs l) as Hstore by (now apply store_distinct).
  destruct (runs_totals l) as [Htime Hcount].
  pose proof (runs_length l Hnd) as Hd. fold d in Hd.
  destruct (loop_runs user_email events Hadm initial)
    as (st & Hloop & Hseal & Htotal & meetings & Hmeetings & Hrows); [reflexivity |].
  apply (f_equal length) in Hmeetings. rewrite length_app, Hrows in Hmeetings.
  unfold pending in Hseal.
  cbn [initial current stats total rows length Nat.add] in Hseal, Htotal, Hmeetings.
  fold l in Hseal, Htotal, Hmeetings. rewrite Hstore in Hseal.
  exists (runs l), {| meetings_csv := rows st;
                      stats_csv := export_stats_to_csv (seal st);
                      written := total st |}.
  unfold daily_stats, export_events_to_csv. rewrite Hloop. cbn [mbind result_bind].
  rewrite Hseal, export_stats_to_csv_rows, Htime, Hcount, Hd.
  cbn [written meetings_csv stats_csv]. rewrite Hlen in *.
  repeat split; try congruence; try lia.
  exact Hnd.
Qed.

Lemma start_dates_times (events : list Event) :
  start_dates user_email events = date_of <$> start_times user_email events.
Proof.
  unfold start_dates, start_times.
  induction (filter (fun e => is_selected user_email e = true) events) as [| e l IH];
    [reflexivity |].
  cbn [omap list_omap]. unfold start_date at 1, start_time at 1.
  destruct (start e) as [s |]; cbn; [| exact IH].
  destruct (dateTime s) as [t |]; cbn; [| exact IH].
  now rewrite IH.
Qed.

(** Start times in chronological order, all with one UTC offset, give
    start dates that never decrease. *)
Lemma chronological_start_dates (events : list Event) :
  Forall (fun t => check_fields t = true) (start_times user_email events) ->
  (forall t t', t ∈ start_times user_email events -> t' ∈ start_times user_email events ->
                utcoffset t = utcoffset t') ->
  StronglySorted not_after (start_times user_email events) ->
  Forall valid_date (start_dates user_email events) /\
  StronglySorted date_le (start_dates user_email events).
Proof.
  rewrite start_dates_times.
  induction (start_times user_email events) as [| t ts IH]; intros Hvalid Hoff Hsorted.
  - split; constructor.
  - apply Forall_cons in Hvalid as [Ht Hts].
    apply StronglySorted_cons in Hsorted as [Hle Hsorted].
    destruct IH as [IHv IHs]; [exact Hts | | exact Hsorted |].
    { intros a b Ha Hb. apply Hoff; now right. }
    split; cbn [fmap list_fmap].
    + constructor; [now apply check_fields_valid_date | exact IHv].
    + apply StronglySorted_cons. split; [| exact IHs].
      apply Forall_fmap, Forall_forall. intros t' Ht'. cbn.
      rewrite Forall_forall in Hts, Hle.
      apply not_after_date_le; [exact Ht | now apply Hts | | now apply Hle].
      apply Hoff; [now left | now right].
Qed.

(** X7: the report of [wallaby] on a chronologically sorted input whose start
    times carry one UTC offset: [d] entries for [d] distinct start dates,
    counts adding up to the [k] selected meetings, durations adding up to
    their total, and the averages over the [d] days. *)
Theorem export_events_to_csv_chronological (events : list Event) :
  Forall (fun e => admissible user_email e = true) events ->
  Forall (fun t => check_fields t = true) (start_times user_email events) ->
  (forall t t', t ∈ start_times user_email events -> t' ∈ start_times user_email events ->
                utcoffset t = utcoffset t') ->
  StronglySorted not_after (start_times user_email events) ->
  let l := entries user_email events in
  let k := length (filter (fun e => is_selected user_email e = true) events) in
  let d := distinct_days l in
  exists stats out,
    daily_stats events user_email = Ok stats /\
    export_events_to_csv events user_email = Ok out /\
    length stats = d /\
    total_count stats = k /\
    total_time stats = foldr Z.add 0 l.*2 /\
    stats_csv out
    = StatsHeader :: (day_row <$> stats)
      ++ match stats with
         | [] => []
         | _ => [StatsAverages (average_time (foldr Z.add 0 l.*2) d) (average_count k d)]
         end.
Proof.
  intros Hadm Hvalid Hoff Hsorted l k d.
  destruct (chronological_start_dates events Hvalid Hoff Hsorted) as [Hdates Hdays].
  destruct (export_events_to_csv_sorted events Hadm Hdates Hdays)
    as (stats & out & Hstats & Hout & _ & Hlen & _ & Hcount & Htime & _ & _ & Hcsv).
  exists stats, out. repeat split; assumption.
Qed.

End Sorted.

Example export_events_to_csv_scenario :
  exists stats out,
    ListEvents.daily_stats [Samples.standup; Samples.review; Samples.sync] Samples.me = Ok stats /\
    ListEvents.export_events_to_csv [Samples.standup; Samples.review; Samples.sync] Samples.me
    = Ok out /\
    length stats = 2%nat /\ Spec.total_count stats = 3%nat /\
    Spec.total_time stats = timedelta_of_minutes 90.
Proof.
  destruct (export_events_to_csv_chronological Samples.me
              [Samples.standup; Samples.review; Samples.sync])
    as (stats & out & Hstats & Hout & Hlen & Hcount & Htime & _).
  - repeat constructor.
  - repeat constructor.
  - intros t t' Ht Ht'. vm_compute in Ht, Ht'.
    repeat (apply elem_of_cons in Ht as [-> | Ht]); try (now apply elem_of_nil in Ht);
      repeat (apply elem_of_cons in Ht' as [-> | Ht']); try (now apply elem_of_nil in Ht');
      reflexivity.
  - repeat constructor; unfold Spec.not_after; vm_compute; discriminate.
  - exists stats, out. repeat split; assumption.
Defined.

(** The offsets matter: in chronological order, but with time stamps of
    different UTC offsets, the date keys 5 March, 4 March, 5 March are not
    grouped, and the first meeting is lost from the statistics. *)
Example chronological_with_mixed_offsets :
  StronglySorted Spec.not_after
    (Spec.start_times Samples.me
       [Samples.call_east; Samples.call_utc; Samples.call_east_again]) /\
  ListEvents.daily_stats [Samples.call_east; Samples.call_utc; Samples.call_east_again]
    Samples.me
  = Ok [("2024-03-05", ListEvents.mkDailyStat (timedelta_of_minutes 20) 1);
        ("2024-03-04", ListEvents.mkDailyStat (timedelta_of_minutes 15) 1)].
Proof.
  split; [| reflexivity].
  repeat constructor; unfold Spec.not_after; vm_compute; discriminate.
Qed.

(** ** The reports on the sample calendars *)

(** C1: [list-calendar-events.py] does not seal the accumulator that is
    open when the events end.  For two meetings on 4 March (30 and 45
    minutes) and one on 5 March (15 minutes) its [stats.csv] has the row of
    4 March only, and its averages are 75 minutes and 2 meetings per day.
    [export_events_to_csv] of [wallaby] seals the last day: two rows,
    averages 45 minutes and 3/2 meetings per day. *)
Theorem legacy_main_drops_last_day :
  (exists out,
     Legacy.main Samples.me [Samples.standup; Samples.review; Samples.sync] = Ok (Some out) /\
     ListEvents.stats_csv out
     = [ListEvents.StatsHeader;
        ListEvents.StatsDay "2024-03-04" (timedelta_of_minutes 75) 2;
        ListEvents.StatsAverages (timedelta_of_minutes 75) (2 # 1)]) /\
  (exists out,
     ListEvents.export_events_to_csv [Samples.standup; Samples.review; Samples.sync] Samples.me
     = Ok out /\
     ListEvents.stats_csv out
     = [ListEvents.StatsHeader;
        ListEvents.StatsDay "2024-03-04" (timedelta_of_minutes 75) 2;
        ListEvents.StatsDay "2024-03-05" (timedelta_of_minutes 15) 1;
        ListEvents.StatsAverages (timedelta_of_minutes 45) (3 # 2)]).
Proof. split; eexists; split; reflexivity. Qed.

(** The statistics file of [list-calendar-events.py] divides by the number
    of days without a test. *)
Lemma legacy_stats_file_empty : Legacy.stats_file [] = Raise ZeroDivisionError.
Proof. reflexivity. Qed.

(** [export_stats_to_csv] of [wallaby] writes the averages only for a
    mapping that is not empty. *)
Lemma export_stats_to_csv_empty : ListEvents.export_stats_to_csv [] = [ListEvents.StatsHeader].
Proof. reflexivity. Qed.

(** With no selected meeting [wallaby] writes the two headers and nothing
    else. *)
Lemma export_events_to_csv_no_meeting (user_email : string) (events : list Event) :
  Forall (fun e => Spec.admissible user_email e = true) events ->
  Spec.entries user_email events = [] ->
  ListEvents.export_events_to_csv events user_email
  = Ok {| ListEvents.meetings_csv := [ListEvents.MeetingsHeader];
          ListEvents.stats_csv := [ListEvents.StatsHeader];
          ListEvents.written := 0 |}.
Proof.
  intros Hadm Hnone.
  destruct (loop_runs user_email events Hadm ListEvents.initial)
    as (st & Hloop & Hseal & Htotal & meetings & Hrows & Hlen); [reflexivity |].
  unfold ListEvents.export_events_to_csv. rewrite Hloop. cbn [mbind result_bind].
  rewrite Hnone in Hseal, Htotal, Hlen. cbn in Hseal, Htotal, Hrows, Hlen.
  apply nil_length_inv in Hlen as ->.
  now rewrite Hseal, Htotal, Hrows.
Qed.

(** C7: [list-calendar-events.py] divides by the number of days of the
    statistics mapping without testing it.  On a calendar whose only event
    is not a selected meeting the mapping is empty and [main] raises
    [ZeroDivisionError]; so it does for meetings that all fall on one day,
    whose accumulator is never sealed.  [export_stats_to_csv] of [wallaby]
    tests [len(stats) > 0] and writes the header only. *)
Theorem legacy_main_divides_by_zero :
  Legacy.main Samples.me [Samples.focus] = Raise ZeroDivisionError /\
  Legacy.main Samples.me [Samples.standup; Samples.review] = Raise ZeroDivisionError /\
  ListEvents.export_events_to_csv [Samples.focus] Samples.me
  = Ok {| ListEvents.meetings_csv := [ListEvents.MeetingsHeader];
          ListEvents.stats_csv := [ListEvents.StatsHeader];
          ListEvents.written := 0 |}.
Proof. repeat split; reflexivity. Qed.

(** C6: a selected meeting without [dateTime] (an all-day event) is not
    skipped by the statistics pipeline: [parser.parse(None)] raises
    [TypeError] and the run ends without a report, in [wallaby] and in
    [list-calendar-events.py] alike.  The archive pipeline skips an event
    without [start] and files an all-day event under its date. *)
Theorem export_events_to_csv_all_day_raises :
  ListEvents.export_events_to_csv [Samples.standup; Samples.offsite] Samples.me
  = Raise TypeError /\
  Legacy.main Samples.me [Samples.standup; Samples.offsite] = Raise TypeError /\
  (exists a,
     DownloadNotes.save_events_as_native ∅ [Samples.cancelled; Samples.offsite]
       Samples.me "out" None = Ok a /\
     DownloadNotes.saved a = ["out/attended/2024-03-06/Offsite.yaml"]).
Proof. repeat split; try reflexivity. eexists. split; vm_compute; reflexivity. Qed.

(** The archive pipeline passes over an event without a usable start. *)
Lemma save_event_without_start (user_email output_dir : string)
    (drive_client : option DriveClient) (a : DownloadNotes.Archive) (e : Event) :
  DownloadNotes.event_date e = None ->
  DownloadNotes.save_event user_email output_dir drive_client a e = Ok a.
Proof. intros He. unfold DownloadNotes.save_event. now rewrite He. Qed.

(** ** Unordered input *)

(** C8, as stated, fails: with a meeting on 4 March, one on 5 March and
    another on 4 March, the entry sealed for 4 March after the second
    meeting (30 minutes, 1 meeting) is replaced at the end by the
    accumulator of the third meeting (20 minutes, 1 meeting); the output has
    one entry for 4 March, not two. *)
Lemma unordered_input_replaces_sealed_day :
  (exists st,
     ListEvents.loop Samples.me ListEvents.initial [Samples.standup; Samples.sync] = Ok st /\
     ListEvents.stats st
     = [("2024-03-04", ListEvents.mkDailyStat (timedelta_of_minutes 30) 1)]) /\
  ListEvents.daily_stats [Samples.standup; Samples.sync; Samples.retro] Samples.me
  = Ok [("2024-03-04", ListEvents.mkDailyStat (timedelta_of_minutes 20) 1);
        ("2024-03-05", ListEvents.mkDailyStat (timedelta_of_minutes 15) 1)].
Proof. split; [eexists; split |]; reflexivity. Qed.

(** An iteration leaves the mapping as it is or stores the accumulator
    that was open, under its own date: it never adds to an entry. *)
Lemma body_stats (user_email : string) (st st' : ListEvents.Fold) (e : Event) :
  ListEvents.body user_email st e = Ok st' ->
  ListEvents.stats st' = ListEvents.stats st \/
  exists cur,
    ListEvents.current st = Some cur /\
    ListEvents.stats st'
    = Dict.setitem cur {| ListEvents.time := ListEvents.cumulative_time st;
                          ListEvents.count := ListEvents.current_count st |}
        (ListEvents.stats st).
Proof.
  unfold ListEvents.body.
  destruct (1 <? length (get (attendees e) []))%nat; [| intros [= <-]; now left].
  destruct (getitem (attendees e)) as [atts |]; cbn [mbind result_bind]; [| discriminate].
  destruct (ListEvents.accepted_attendees atts) as [names |];
    cbn [mbind result_bind]; [| discriminate].
  destruct (bool_decide (user_email ∈ names)); [| intros [= <-]; now left].
  destruct (getitem (start e)) as [s |]; cbn [mbind result_bind]; [| discriminate].
  destruct (parser_parse (dateTime s)) as [t0 |]; cbn [mbind result_bind]; [| discriminate].
  destruct (getitem (end_ e)) as [en |]; cbn [mbind result_bind]; [| discriminate].
  destruct (parser_parse (dateTime en)) as [t1 |]; cbn [mbind result_bind]; [| discriminate].
  destruct (ListEvents.current st) as [cur |];
    [destruct (negb (String.eqb cur (strftime_ymd (date_of t0)))) |];
    (destruct (getitem (summary e)) as [sm |]; cbn [mbind result_bind]; [| discriminate];
     destruct (getitem (creator e)) as [c |]; cbn [mbind result_bind]; [| discriminate];
     destruct (getitem (creator_email c)) as [ce |]; cbn [mbind result_bind]; [| discriminate];
     intros [= <-]; cbn [ListEvents.stats]).
  - right. now exists cur.
  - now left.
  - now left.
Qed.

(** C8 (amended): on every input, ordered or not, the fold never adds a
    later event to an entry of the result mapping: an iteration leaves the
    mapping unchanged or stores the accumulator that was open.  The mapping
    has one entry per distinct date, and the entry of a date is the total
    duration and count of the last run of consecutive meetings of that date:
    a later run replaces the entry of an earlier run of the same date. *)
Theorem daily_stats_last_run (user_email : string) (events : list Event) :
  Forall (fun e => Spec.admissible user_email e = true) events ->
  exists stats,
    ListEvents.daily_stats events user_email = Ok stats /\
    NoDup (Dict.keys stats) /\
    (forall k, k ∈ Dict.keys stats <-> k ∈ (Spec.entries user_email events).*1) /\
    (forall k,
       Dict.lookup k stats
       = snd <$> last (filter (fun r => r.1 = k) (Spec.runs (Spec.entries user_email events)))) /\
    (forall st st' e,
       ListEvents.body user_email st e = Ok st' ->
       ListEvents.stats st' = ListEvents.stats st \/
       exists cur,
         ListEvents.current st = Some cur /\
         ListEvents.stats st'
         = Dict.setitem cur {| ListEvents.time := ListEvents.cumulative_time st;
                               ListEvents.count := ListEvents.current_count st |}
             (ListEvents.stats st)).
Proof.
  intros Hadm. eexists. split; [now apply daily_stats_runs |].
  split; [apply store_NoDup; constructor |].
  split; [| split].
  - intros k. rewrite store_keys, runs_keys. set_solver.
  - intros k. rewrite store_lookup. now destruct (last _).
  - intros st st' e. apply body_stats.
Qed.

Lemma daily_stats_last_run_witness :
  exists stats,
    ListEvents.daily_stats [Samples.standup; Samples.sync; Samples.retro] Samples.me = Ok stats /\
    Dict.lookup "2024-03-04" stats
    = Some (ListEvents.mkDailyStat (timedelta_of_minutes 20) 1).
Proof.
  destruct (daily_stats_last_run Samples.me [Samples.standup; Samples.sync; Samples.retro])
    as (stats & Hrun & _ & _ & Hlast & _).
  - repeat constructor.
  - exists stats. split; [exact Hrun |]. rewrite Hlast. reflexivity.
Defined.

(** ** Collision resolution *)

Section Collisions.
Import DownloadNotes Spec.

Lemma string_app_inj_r (s1 s2 s : string) : s1 +:+ s = s2 +:+ s -> s1 = s2.
Proof.
  intros Heq. apply (f_equal list_ascii_of_string) in Heq.
  rewrite !chars_of_app in Heq. apply app_inv_tail in Heq.
  apply (f_equal string_of_list_ascii) in Heq.
  now rewrite !string_of_list_ascii_of_string in Heq.
Qed.

(** Names that differ in the counter only are different. *)
Lemma counter_name_inj (before after : string) (i j : nat) :
  before +:+ str_of_nat i +:+ after = before +:+ str_of_nat j +:+ after -> i = j.
Proof.
  intros Heq. apply String.app_inj, string_app_inj_r in Heq.
  now apply pretty_nat_inj in Heq.
Qed.

Lemma event_new_filename_inj (filename : string) (i j : nat) :
  event_new_filename filename i = event_new_filename filename j -> i = j.
Proof.
  unfold event_new_filename.
  destruct (rsplit1 "." filename) as [[stem ext] |]; intros Heq.
  - apply String.app_inj in Heq. now apply (counter_name_inj "_" ("." +:+ ext)).
  - do 2 apply String.app_inj in Heq. now apply pretty_nat_inj in Heq.
Qed.

Lemma note_new_name_stem (safe_title : string) (n : nat) :
  note_new_name safe_title n = note_stem safe_title +:+ "_" +:+ str_of_nat n +:+ ".txt".
Proof.
  unfold note_new_name, note_stem.
  destruct (char_in "." safe_title) eqn:Hdot.
  - now destruct (rsplit1 "." safe_title) as [[stem ext] |].
  - assert (rsplit1 "." safe_title = None) as ->; [| reflexivity].
    induction safe_title as [| c s IH]; [reflexivity |].
    cbn [char_in] in Hdot. cbn [rsplit1]. apply orb_false_iff in Hdot as [Hc Hs].
    rewrite (IH Hs). rewrite Ascii.eqb_sym in Hc. now rewrite Hc.
Qed.

Lemma note_new_name_inj (safe_title : string) (i j : nat) :
  note_new_name safe_title i = note_new_name safe_title j -> i = j.
Proof.
  rewrite !note_new_name_stem. intros Heq.
  apply String.app_inj in Heq. now apply (counter_name_inj "_" ".txt").
Qed.

Lemma path_join_inj (dir n1 n2 : string) : path_join dir n1 = path_join dir n2 -> n1 = n2.
Proof. unfold path_join. intros Heq. now do 2 apply String.app_inj in Heq. Qed.

Lemma path_exists_true (fs : gmap string File) (p : string) :
  path_exists fs p = true <-> is_Some (fs !! p).
Proof. unfold path_exists. apply bool_decide_eq_true. Qed.

Lemma path_exists_false (fs : gmap string File) (p : string) :
  path_exists fs p = false <-> fs !! p = None.
Proof.
  unfold path_exists. rewrite bool_decide_eq_false. symmetry. apply eq_None_not_Some.
Qed.

Section FirstFree.
Variable fs : gmap string File.
Variable dir first : string.
Variable new_name : nat -> string.

(** What the loop returns is free, and every path tried before it was
    taken. *)
Lemma first_free_ok (fuel c : nat) (p q : string) :
  first_free fs dir new_name fuel p c = Ok q ->
  fs !! q = None /\
  ((q = p /\ fs !! p = None) \/
   (is_Some (fs !! p) /\
    exists n, (c <= n < c + fuel)%nat /\ q = path_join dir (new_name n) /\
              forall i, (c <= i < n)%nat -> is_Some (fs !! path_join dir (new_name i)))).
Proof.
  revert c p. induction fuel as [| fuel IH]; intros c p; cbn [first_free];
    destruct (path_exists fs p) eqn:Hp; try discriminate.
  - intros [= <-]. apply path_exists_false in Hp. split; [exact Hp | now left].
  - intros Hq. apply path_exists_true in Hp.
    apply IH in Hq as [Hfree [[-> Hnone] | [Htaken (n & Hn & -> & Hbefore)]]].
    + split; [exact Hfree |]. right. split; [exact Hp |].
      exists c. repeat split; lia.
    + split; [exact Hfree |]. right. split; [exact Hp |].
      exists n. repeat split; try lia.
      intros i Hi. destruct (decide (i = c)) as [-> | Hne]; [exact Htaken |].
      apply Hbefore. lia.
  - intros [= <-]. apply path_exists_false in Hp. split; [exact Hp | now left].
Qed.

(** The loop gives up only after [fuel] taken names. *)
Lemma first_free_raise (fuel c : nat) (p : string) (e : exn) :
  first_free fs dir new_name fuel p c = Raise e ->
  forall i, (c <= i < c + fuel)%nat -> is_Some (fs !! path_join dir (new_name i)).
Proof.
  revert c p. induction fuel as [| fuel IH]; intros c p; cbn [first_free];
    destruct (path_exists fs p) eqn:Hp; try discriminate.
  - intros _ i Hi. lia.
  - intros Hraise i Hi.
    destruct (decide (i = c)) as [-> | Hne].
    + destruct fuel as [| fuel']; cbn [first_free] in Hraise;
        destruct (path_exists fs (path_join dir (new_name c))) eqn:Hc; try discriminate;
        now apply path_exists_true.
    + apply (IH _ _ Hraise). lia.
Qed.

Hypothesis new_name_inj : forall i j, new_name i = new_name j -> i = j.

(** A directory cannot hold more names than it has files: the bound of
    the model is never reached. *)
Lemma first_free_total (c : nat) (p : string) :
  exists q, first_free fs dir new_name (bound fs) p c = Ok q.
Proof.
  destruct (first_free fs dir new_name (bound fs) p c) as [q | e] eqn:Hrun;
    [now exists q |].
  exfalso. pose proof (first_free_raise _ _ _ _ Hrun) as Htaken.
  set (tried := (fun i => path_join dir (new_name i)) <$> seq c (bound fs)).
  assert (NoDup tried) as Hnd.
  { apply NoDup_fmap_2; [| apply NoDup_seq].
    intros i j Hij. now apply new_name_inj, (path_join_inj dir). }
  assert (list_to_set tried ⊆ dom fs) as Hsub.
  { intros x Hx. apply elem_of_list_to_set, list_elem_of_fmap in Hx as (i & -> & Hi).
    apply elem_of_dom, Htaken. apply elem_of_seq in Hi. lia. }
  apply subseteq_size in Hsub.
  rewrite size_list_to_set, size_dom in Hsub by exact Hnd.
  subst tried. rewrite length_fmap, length_seq in Hsub. unfold bound in Hsub. lia.
Qed.

(** From the computed path the loop returns the first free candidate. *)
Lemma first_free_candidate :
  exists n,
    first_free fs dir new_name (bound fs) (path_join dir first) 1
    = Ok (candidate dir first new_name n) /\
    fs !! candidate dir first new_name n = None /\
    forall i, (i < n)%nat -> is_Some (fs !! candidate dir first new_name i).
Proof.
  destruct (first_free_total 1 (path_join dir first)) as [q Hrun].
  destruct (first_free_ok _ _ _ _ Hrun)
    as [Hfree [[-> Hnone] | [Htaken (n & Hn & -> & Hbefore)]]].
  - exists 0%nat. repeat split; [exact Hrun | exact Hnone | intros i Hi; lia].
  - exists n. destruct n as [| n]; [lia |].
    repeat split; [exact Hrun | exact Hfree |].
    intros [| i] Hi; [exact Htaken |]. apply Hbefore. lia.
Qed.

End FirstFree.

Lemma last_char_app (a b : string) :
  last_char (a +:+ b)
  = match last_char b with Some c => Some c | None => last_char a end.
Proof. unfold last_char. now rewrite chars_of_app, last_app. Qed.





Lemma note_candidate_txt (dir safe_title : string) (n : nat) :
  last_char (candidate dir (safe_title +:+ ".txt") (note_new_name safe_title) n)
  = Some "t"%char.
Proof.
  destruct n as [| n]; cbn [candidate]; unfold path_join;
    rewrite ?note_new_name_stem; now rewrite !last_char_app.
Qed.

(** A downloaded note goes to a path that was free; the files that were
    there stay, and the new path ends in [.txt]. *)
Lemma download_one_spec (dc : DriveClient) (dir : string)
    (fs : gmap string File) (count i : nat) (att : Attachment) :
  exists fs' count',
    download_one dc dir (fs, count) i att = Ok (fs', count') /\
    fs ⊆ fs' /\
    (forall p, fs !! p = None -> is_Some (fs' !! p) -> last_char p = Some "t"%char).
Proof.
  unfold download_one.
  destruct (is_gemini_note att);
    [| exists fs, count; repeat split; [done | intros p -> [? [=]]]].
  destruct (fileId att) as [[| c id] |];
    try (exists fs, count; repeat split; [done | intros p -> [? [=]]]).
  set (safe := sanitize_filename _).
  destruct (first_free_candidate fs dir (safe +:+ ".txt") (note_new_name safe)
              (note_new_name_inj safe)) as (n & -> & Hfree & _).
  cbn [mbind result_bind]. unfold download_document_as_text.
  destruct (export_media dc (String c id)) as [text | partial |];
    (eexists _, _; split; [reflexivity |]; split);
    try (now apply insert_subseteq); try done;
    intros p Hp Hsome;
    try (destruct (decide (p = candidate dir (safe +:+ ".txt") (note_new_name safe) n))
           as [-> | Hne];
         [apply note_candidate_txt |
          rewrite lookup_insert_ne in Hsome by done; rewrite Hp in Hsome;
          now destruct Hsome]).
  rewrite Hp in Hsome. now destruct Hsome.
Qed.

Lemma download_loop_spec (dc : DriveClient) (dir : string) (atts : list Attachment) :
  forall (fs : gmap string File) (count i : nat),
  exists fs' count',
    download_loop dc dir (fs, count) i atts = Ok (fs', count') /\
    fs ⊆ fs' /\
    (forall p, fs !! p = None -> is_Some (fs' !! p) -> last_char p = Some "t"%char).
Proof.
  induction atts as [| att atts IH]; intros fs count i; cbn [download_loop].
  - exists fs, count. repeat split; [done | intros p -> [? [=]]].
  - destruct (download_one_spec dc dir fs count i att) as (fs1 & count1 & -> & Hsub1 & Hnew1).
    cbn [mbind result_bind].
    destruct (IH fs1 count1 (S i)) as (fs2 & count2 & -> & Hsub2 & Hnew2).
    exists fs2, count2. repeat split; [by etrans |].
    intros p Hp Hsome.
    destruct (fs1 !! p) eqn:Hp1; [apply Hnew1; [exact Hp | by rewrite Hp1] |].
    now apply Hnew2.
Qed.

End Collisions.

(** ** The archive pipeline *)

Section Archive.
Import DownloadNotes Spec.

Variable user_email output_dir : string.
Variable drive_client : option DriveClient.

(** The classifier answers with one of the three counter keys. *)
Lemma get_attendance_status_outcome (e : Event) :
  get_attendance_status e user_email ∈ outcomes.
Proof.
  unfold get_attendance_status, outcomes.
  induction (get (attendees e) []) as [| a atts IH]; cbn [find_status]; [set_solver |].
  destruct (String.eqb _ (lower user_email)); [| exact IH].
  destruct (String.eqb _ "accepted"); [set_solver |].
  destruct (String.eqb _ "declined"); set_solver.
Qed.

Lemma increment_ok (key : string) (n : nat) (m : gmap string nat) :
  counters m -> key ∈ outcomes ->
  exists v,
    m !! key = Some v /\
    increment key n m = Ok (<[key := (v + n)%nat]> m) /\
    counters (<[key := (v + n)%nat]> m).
Proof.
  intros Hm Hkey. destruct (Hm key Hkey) as [v Hv]. exists v.
  unfold increment. rewrite Hv. repeat split.
  intros k Hk. destruct (decide (key = k)) as [-> | Hne].
  - rewrite lookup_insert_eq. eauto.
  - rewrite lookup_insert_ne by done. now apply Hm.
Qed.

(** Filing one event: its file goes to the first free candidate, no file
    that was there is touched, and its outcome's counter goes up by one. *)
Lemma save_event_spec (a : Archive) (e : Event) (d : date) :
  counters (stats a) -> counters (gemini_stats a) -> event_date e = Some d ->
  let cand := candidate (event_dir user_email output_dir e d) (event_filename e)
                        (event_new_filename (event_filename e)) in
  exists n a' v,
    save_event user_email output_dir drive_client a e = Ok a' /\
    files a !! cand n = None /\
    (forall i, (i < n)%nat -> is_Some (files a !! cand i)) /\
    files a' !! cand n = Some (EventFile e) /\
    files a ⊆ files a' /\
    (forall p, files a !! p = None -> is_Some (files a' !! p) ->
               p = cand n \/ last_char p = Some "t"%char) /\
    saved a' = saved a ++ [cand n] /\
    stats a !! get_attendance_status e user_email = Some v /\
    stats a' = <[get_attendance_status e user_email := S v]> (stats a) /\
    counters (stats a') /\ counters (gemini_stats a').
Proof.
  intros Hstats Hgemini Hdate cand. unfold save_event. rewrite Hdate.
  destruct (increment_ok _ 1 _ Hstats (get_attendance_status_outcome e))
    as (v & Hv & -> & Hstats').
  cbn [mbind result_bind]. rewrite Nat.add_1_r in Hstats' |- *.
  destruct (first_free_candidate (files a) (event_dir user_email output_dir e d)
              (event_filename e) (event_new_filename (event_filename e))
              (event_new_filename_inj (event_filename e))) as (n & Hrun & Hfree & Htaken).
  fold cand in Hrun, Hfree, Htaken.
  unfold event_dir, event_filename in Hrun. unfold get_file_extension.
  rewrite Hrun. cbn [mbind result_bind]. clear Hrun.
  destruct drive_client as [dc |].
  - unfold download_gemini_notes.
    destruct (download_loop_spec dc (event_dir user_email output_dir e d)
                (get (attachments e) []) (<[cand n := EventFile e]> (files a)) 0%nat 0%nat)
      as (fs' & count & Hnotes & Hsub & Hnew).
    unfold event_dir in Hnotes. rewrite Hnotes. cbn [mbind result_bind]. clear Hnotes.
    destruct (increment_ok _ count _ Hgemini (get_attendance_status_outcome e))
      as (g & _ & -> & Hgemini').
    cbn [mbind result_bind].
    eexists n, _, v. split; [reflexivity |]. cbn [files stats gemini_stats saved].
    repeat split; try assumption.
    + eapply lookup_weaken; [apply lookup_insert_eq | exact Hsub].
    + etrans; [apply insert_subseteq; exact Hfree | exact Hsub].
    + intros p Hp Hsome. destruct (decide (p = cand n)) as [-> | Hne]; [now left |].
      right. apply Hnew; [| exact Hsome]. now rewrite lookup_insert_ne.
  - eexists n, _, v. split; [reflexivity |]. cbn [files stats gemini_stats saved].
    repeat split; try assumption.
    + apply lookup_insert_eq.
    + now apply insert_subseteq.
    + intros p Hp Hsome. destruct (decide (p = cand n)) as [-> | Hne]; [now left |].
      rewrite lookup_insert_ne, Hp in Hsome by done. now destruct Hsome.
Qed.

Lemma tally_cons (outcome : string) (e : Event) (events : list Event) :
  tally user_email outcome (e :: events)
  = ((if bool_decide (is_Some (event_date e)
                      /\ get_attendance_status e user_email = outcome)
      then 1 else 0) + tally user_email outcome events)%nat.
Proof.
  unfold tally, archived. rewrite filter_cons.
  destruct (decide (is_Some (event_date e))) as [Hd | Hd].
  - rewrite filter_cons.
    destruct (decide (get_attendance_status e user_email = outcome)) as [Hs | Hs].
    + now rewrite bool_decide_eq_true_2.
    + rewrite bool_decide_eq_false_2; [reflexivity | tauto].
  - rewrite bool_decide_eq_false_2; [reflexivity | tauto].
Qed.

(** The whole loop: it runs to its end, keeps every file, files one
    record per event with a usable start, and counts each under its
    outcome. *)
Lemma save_loop_spec (events : list Event) :
  forall a : Archive,
    counters (stats a) -> counters (gemini_stats a) ->
    exists a',
      save_loop user_email output_dir drive_client a events = Ok a' /\
      files a ⊆ files a' /\
      (exists new, saved a' = saved a ++ new /\ length new = length (archived events) /\
                   Forall (fun p => files a !! p = None /\ is_Some (files a' !! p)) new /\
                   NoDup new) /\
      (forall s v, stats a !! s = Some v ->
                   stats a' !! s = Some (v + tally user_email s events)%nat).
Proof.
  induction events as [| e events IH]; intros a Hstats Hgemini; cbn [save_loop].
  - exists a. repeat split; [done | | intros s v ->; f_equal; cbn; lia].
    exists []. rewrite app_nil_r. repeat split; constructor.
  - destruct (event_date e) as [d |] eqn:Hdate.
    + destruct (save_event_spec a e d Hstats Hgemini Hdate)
        as (n & a1 & v & -> & Hfree & _ & Hfile & Hsub & _ & Hsaved & Hv & Hstats1 & Hc1 & Hg1).
      cbn [mbind result_bind].
      destruct (IH a1 Hc1 Hg1) as (a' & -> & Hsub' & (new & Hnew & Hlen & Hall & Hnd) & Htally).
      exists a'. split; [reflexivity |]. split; [by etrans |]. split.
      * eexists (_ :: new). rewrite Hnew, Hsaved, <- app_assoc. split; [reflexivity |].
        split; [| split].
        -- unfold archived. rewrite filter_cons, decide_True by (rewrite Hdate; eauto).
           cbn. now rewrite Hlen.
        -- constructor.
           ++ split; [exact Hfree | eapply lookup_weaken_is_Some; [| exact Hsub']; eauto].
           ++ eapply Forall_impl; [exact Hall |]. cbn. intros p [Hp Hsome].
              split; [| exact Hsome]. eapply lookup_weaken_None; [exact Hp | exact Hsub].
        -- apply NoDup_cons. split; [| exact Hnd].
           intros Hin. rewrite Forall_forall in Hall. apply Hall in Hin as [Hnone _].
           rewrite Hfile in Hnone. discriminate.
      * intros s v0 Hs. rewrite tally_cons.
        destruct (decide (get_attendance_status e user_email = s)) as [<- | Hne].
        -- rewrite bool_decide_eq_true_2 by (rewrite Hdate; eauto).
           rewrite Hs in Hv. injection Hv as <-.
           rewrite (Htally _ (S v0)) by (rewrite Hstats1; apply lookup_insert_eq).
           f_equal. lia.
        -- rewrite bool_decide_eq_false_2 by tauto.
           apply Htally. rewrite Hstats1, lookup_insert_ne by done. exact Hs.
    + rewrite save_event_without_start by exact Hdate. cbn [mbind result_bind].
      destruct (IH a Hstats Hgemini) as (a' & -> & Hsub' & Hnew & Htally).
      exists a'. split; [reflexivity |]. split; [exact Hsub' |]. split.
      * unfold archived. rewrite filter_cons, decide_False; [exact Hnew |].
        rewrite Hdate. now intros [? [=]].
      * intros s v Hs. rewrite tally_cons, bool_decide_eq_false_2.
        -- now apply Htally.
        -- rewrite Hdate. now intros [[? [=]] _].
Qed.

End Archive.

Lemma counters_zero : Spec.counters DownloadNotes.zero_counters.
Proof.
  intros k Hk. unfold Spec.outcomes in Hk.
  repeat (apply elem_of_cons in Hk as [-> | Hk]); [eexists; reflexivity .. |].
  now apply elem_of_nil in Hk.
Qed.

(** Every archived event has exactly one of the three outcomes. *)
Lemma tally_total (user_email : string) (events : list Event) :
  (Spec.tally user_email "attended" events + Spec.tally user_email "rejected" events
   + Spec.tally user_email "unacknowledged" events)%nat
  = length (Spec.archived events).
Proof.
  unfold Spec.tally. induction (Spec.archived events) as [| e l IH]; [reflexivity |].
  rewrite !filter_cons. cbn [length]. rewrite <- IH.
  pose proof (get_attendance_status_outcome user_email e) as Hout.
  unfold Spec.outcomes in Hout.
  repeat (apply elem_of_cons in Hout as [-> | Hout]);
    [| | | now apply elem_of_nil in Hout];
    repeat case_decide; try congruence; cbn [length]; lia.
Qed.

(** C10: the archive pipeline runs to its end on every event list; each
    event with a usable start (a [start] with a [dateTime] or a [date]) is
    filed once and counted once, under the one outcome the classifier gives
    it; an event without a usable start is counted nowhere; the three
    counters add up to the number of archived events. *)
Theorem save_events_as_native_counts (fs : gmap string File)
    (events : list Event) (user_email output_dir : string)
    (drive_client : option DriveClient) :
  exists a,
    DownloadNotes.save_events_as_native fs events user_email output_dir drive_client = Ok a /\
    DownloadNotes.stats a !! "attended" = Some (Spec.tally user_email "attended" events) /\
    DownloadNotes.stats a !! "rejected" = Some (Spec.tally user_email "rejected" events) /\
    DownloadNotes.stats a !! "unacknowledged"
    = Some (Spec.tally user_email "unacknowledged" events) /\
    (Spec.tally user_email "attended" events + Spec.tally user_email "rejected" events
     + Spec.tally user_email "unacknowledged" events)%nat
    = length (Spec.archived events) /\
    length (DownloadNotes.saved a) = length (Spec.archived events) /\
    Forall (fun e => DownloadNotes.get_attendance_status e user_email ∈ Spec.outcomes)
           (Spec.archived events) /\
    (forall e, e ∈ Spec.archived events <->
               e ∈ events /\
               exists s, start e = Some s /\ (is_Some (dateTime s) \/ is_Some (date_ s))).
Proof.
  unfold DownloadNotes.save_events_as_native.
  destruct (save_loop_spec user_email output_dir drive_client events
              {| DownloadNotes.files := fs; DownloadNotes.stats := DownloadNotes.zero_counters;
                 DownloadNotes.gemini_stats := DownloadNotes.zero_counters;
                 DownloadNotes.saved := [] |} counters_zero counters_zero)
    as (a & Hrun & _ & (new & Hsaved & Hlen & _) & Htally).
  exists a. split; [exact Hrun |].
  cbn [DownloadNotes.stats DownloadNotes.saved] in Htally, Hsaved.
  repeat split.
  - now rewrite (Htally "attended" 0%nat).
  - now rewrite (Htally "rejected" 0%nat).
  - now rewrite (Htally "unacknowledged" 0%nat).
  - apply tally_total.
  - now rewrite Hsaved.
  - apply Forall_forall. intros e _. apply get_attendance_status_outcome.
  - unfold Spec.archived in H. now apply list_elem_of_filter in H as [_ H].
  - unfold Spec.archived in H. apply list_elem_of_filter in H as [[d Hd] _].
    unfold DownloadNotes.event_date in Hd.
    destruct (start e) as [s |]; [| discriminate]. exists s. split; [reflexivity |].
    destruct (dateTime s); [left; eauto |]. destruct (date_ s); [right; eauto | discriminate].
  - intros [Hin (s & Hs & Hsome)]. unfold Spec.archived. apply list_elem_of_filter.
    split; [| exact Hin]. unfold DownloadNotes.event_date. rewrite Hs.
    destruct Hsome as [[t ->] | [d ->]]; [eauto |]. destruct (dateTime s); eauto.
Qed.

(** ** Collision-free filing *)





(** ** The paginated fetch *)

Section Pagination.
Import CalendarClient.

Variable calendar_id time_min time_max : string.
Variable page_size : Z.

Lemma loop_pages (final : EventsResult) (rest : list (result EventsResult))
    (pages : list EventsResult) :
  Forall (fun r => is_Some (nextPageToken r)) pages ->
  nextPageToken final = None ->
  forall (events : list Event) (page_token : option string)
         (asked : list ListRequest) (lines : list Line),
  exists lines',
    eutt eq
      (interp_state serve
         (ITree.iter (round calendar_id time_min time_max page_size) (events, page_token))
         {| script := (Ok <$> pages ++ [final]) ++ rest;
            requests := asked; printed := lines |})
      (Ret ({| script := rest;
               requests := asked ++ (Spec.request_with calendar_id time_min time_max page_size <$> page_token :: (nextPageToken <$> pages));
               printed := lines' |},
            Ok (events ++ concat (Spec.items_of <$> pages ++ [final])))).
Proof.
  intros Hpages Hfinal. induction Hpages as [| page pages [token Htoken] _ IH];
    intros events page_token asked lines.
  - eexists. rewrite unfold_iter. unfold round at 1.
    rewrite interp_state_bind, interp_state_bind, interp_state_trigger.
    cbn. rewrite bind_ret_l. cbn. rewrite Hfinal.
    rewrite interp_state_bind, interp_state_trigger. cbn.
    rewrite bind_ret_l, interp_state_ret, bind_ret_l. cbn.
    rewrite interp_state_ret, app_nil_r. reflexivity.
  - destruct (IH (events ++ Spec.items_of page) (Some token)
                 (asked ++ [Spec.request_with calendar_id time_min time_max page_size page_token])
                 (lines ++ [GotSoFar (length (events ++ Spec.items_of page));
                            GrabbingNext page_size])) as [lines' Hrest].
    exists lines'. rewrite unfold_iter. unfold round at 1.
    rewrite interp_state_bind, interp_state_bind, interp_state_trigger.
    cbn. rewrite bind_ret_l. cbn. rewrite Htoken.
    rewrite interp_state_bind, interp_state_trigger. cbn.
    rewrite bind_ret_l, interp_state_bind, interp_state_trigger. cbn.
    rewrite bind_ret_l, interp_state_ret, bind_ret_l. cbn.
    rewrite interp_state_tau, tau_eutt.
    rewrite <- !app_assoc in Hrest. rewrite <- !app_assoc. exact Hrest.
Qed.

(** C9: against a sequence of pages of which only the last has no
    continuation cursor, [get_events] asks for the pages one after the
    other, the first request without a cursor and each later one with the
    cursor of the response before it; it returns the items of the pages in
    the order received, as many as the page sizes add up to; it stops at
    the page without a cursor, leaving what the service would answer next
    unasked. *)
Theorem get_events_pagination (pages : list EventsResult) (final : EventsResult)
    (rest : list (result EventsResult)) :
  Forall (fun r => is_Some (nextPageToken r)) pages ->
  nextPageToken final = None ->
  exists lines,
    eutt eq
      (run calendar_id time_min time_max page_size ((Ok <$> pages ++ [final]) ++ rest))
      (Ret ({| script := rest;
               requests := Spec.request_with calendar_id time_min time_max page_size <$> None :: (nextPageToken <$> pages);
               printed := lines |},
            Ok (concat (Spec.items_of <$> pages ++ [final])))) /\
    length (concat (Spec.items_of <$> pages ++ [final]))
    = sum_list (length <$> (Spec.items_of <$> pages ++ [final])) /\
    length (Spec.request_with calendar_id time_min time_max page_size <$> None :: (nextPageToken <$> pages)) = length (pages ++ [final]).
Proof.
  intros Hpages Hfinal.
  destruct (loop_pages final rest pages Hpages Hfinal [] None [] []) as [lines Hrun].
  exists lines. split; [exact Hrun |]. clear Hrun. split.
  - induction (Spec.items_of <$> pages ++ [final]) as [| l ls IH]; [reflexivity |].
    cbn. rewrite length_app, IH. reflexivity.
  - cbn. rewrite !length_fmap, length_app. cbn. lia.
Qed.

End Pagination.

Lemma get_events_pagination_witness :
  exists lines,
    eutt eq
      (CalendarClient.run "primary" "2024-03-01" "2024-03-31" 2
         [Ok (CalendarClient.mkEventsResult (Some [Samples.standup; Samples.review]) (Some "p2"));
          Ok (CalendarClient.mkEventsResult (Some [Samples.sync]) None);
          Raise HttpError])
      (Ret ({| CalendarClient.script := [Raise HttpError];
               CalendarClient.requests :=
                 [Spec.request_with "primary" "2024-03-01" "2024-03-31" 2 None;
                  Spec.request_with "primary" "2024-03-01" "2024-03-31" 2 (Some "p2")];
               CalendarClient.printed := lines |},
            Ok [Samples.standup; Samples.review; Samples.sync])).
Proof.
  destruct (get_events_pagination "primary" "2024-03-01" "2024-03-31" 2
              [CalendarClient.mkEventsResult (Some [Samples.standup; Samples.review]) (Some "p2")]
              (CalendarClient.mkEventsResult (Some [Samples.sync]) None)
              [Raise HttpError]) as (lines & Hrun & _).
  - repeat constructor. cbn. eauto.
  - reflexivity.
  - exists lines. exact Hrun.
Defined.

(** * Further properties *)

(** ** The month window, continued *)

(** [replace] keeps the microseconds and the offset of the clock reading,
    and what it returns passes the field checks. *)
Lemma replace_keeps (t t' : datetime) (y m d hh mm ss : option Z) :
  replace t y m d hh mm ss = Ok t' ->
  check_fields t' = true /\ microsecond t' = microsecond t /\ utcoffset t' = utcoffset t.
Proof.
  unfold replace.
  match goal with |- context [check_fields ?x] => destruct (check_fields x) eqn:Hx end;
    [| discriminate].
  intros [= <-]. repeat split. exact Hx.
Qed.

Lemma get_date_range_keeps (now start end_ : datetime) (months : Z) :
  ListEvents.get_date_range now months = Ok (start, end_) ->
  check_fields start = true /\ check_fields end_ = true /\
  microsecond start = microsecond now /\ microsecond end_ = microsecond now /\
  utcoffset start = utcoffset now /\ utcoffset end_ = utcoffset now.
Proof.
  unfold ListEvents.get_date_range.
  destruct (monthrange (year now) (month now)) as [dayrange |]; [| discriminate].
  cbn [mbind result_bind].
  destruct (if 0 <? months - 1 then _ else _) as [startyear startmonth].
  destruct (replace now (Some startyear) _ _ _ _ _) as [s |] eqn:Hs; [| discriminate].
  cbn [mbind result_bind].
  destruct (replace now None _ _ _ _ _) as [e |] eqn:He; [| discriminate].
  cbn [mbind result_bind]. intros [= <- <-].
  apply replace_keeps in Hs as (? & ? & ?). apply replace_keeps in He as (? & ? & ?).
  repeat split; assumption.
Qed.

(** The ordinal of the first day of a month is not after a day of the
    same or a later month, or of a later year. *)
Lemma first_of_month_le (y m y' m' d' : Z) :
  1 <= m <= 12 -> 1 <= m' <= 12 -> 1 <= d' <= days_in_month y' m' ->
  y < y' \/ (y = y' /\ m <= m') ->
  ymd2ord y m 1 <= ymd2ord y' m' d'.
Proof.
  intros Hm Hm' Hd' Horder.
  pose proof (days_in_month_range y m Hm) as Hdim.
  destruct (decide (y = y' /\ m = m')) as [[-> ->] | Hne].
  - unfold ymd2ord. lia.
  - assert (toordinal (mkdate y m 1) < toordinal (mkdate y' m' d')) as Hlt; [| exact (Z.lt_le_incl _ _ Hlt)].
    unfold toordinal, ymd2ord. cbn [d_year d_month d_day].
    destruct Horder as [Hy | [-> Hmm]].
    + pose proof (day_of_year_bounds y m 1 Hm ltac:(lia)).
      pose proof (day_of_year_bounds y' m' d' Hm' Hd').
      pose proof (days_before_year_step y y' Hy). lia.
    + pose proof (days_before_month_mono y' m m' 1 ltac:(lia) ltac:(lia) ltac:(lia) ltac:(lia)).
      lia.
Qed.

(** X1: for one to thirteen months the window of [list_events.get_date_range]
    holds the clock reading: it starts no later and ends no earlier than
    [now].  The two bounds keep the microseconds and the UTC offset of the
    clock reading (the [replace] calls set the fields down to the second
    only), so the start is the first second of its day only up to the
    clock's microseconds. *)
Theorem get_date_range_contains_now (now : datetime) (months : Z) :
  check_fields now = true -> 1 < year now -> 1 <= months <= 13 ->
  exists start end_,
    ListEvents.get_date_range now months = Ok (start, end_) /\
    instant start <= instant now <= instant end_ /\
    microsecond start = microsecond now /\ microsecond end_ = microsecond now /\
    utcoffset start = utcoffset now /\ utcoffset end_ = utcoffset now /\
    check_fields start = true /\ check_fields end_ = true.
Proof.
  intros Hnow Hyear Hmonths.
  destruct (get_date_range_window now months Hnow Hyear Hmonths)
    as (start & end_ & Hrun & Hplain & Hwrap & _ & _ & _ & Hfirst & Hlast).
  destruct (get_date_range_keeps _ _ _ _ Hrun) as (Hcs & Hce & Hus & Hue & Hos & Hoe).
  exists start, end_. split; [exact Hrun |].
  repeat split; try assumption.
  - apply check_fields_true in Hnow as (Hy & Hm & Hd & Hh & Hmi & Hs & _).
    apply check_fields_true in Hcs as (_ & Hsm & _).
    destruct Hfirst as (Hd1 & Hh0 & Hm0 & Hs0).
    assert (ymd2ord (year start) (month start) 1 <= ymd2ord (year now) (month now) (day now)).
    { apply first_of_month_le; try assumption.
      destruct (Z.lt_ge_cases (months - 1) (month now)) as [Hlt | Hge].
      - destruct (Hplain Hlt) as [-> ->]. right. lia.
      - destruct (Hwrap ltac:(lia)) as [-> _]. left. lia. }
    unfold instant. rewrite Hd1, Hh0, Hm0, Hs0, Hus, Hos. lia.
  - apply check_fields_true in Hnow as (Hy & Hm & Hd & Hh & Hmi & Hs & _).
    destruct Hlast as (Hye & Hme & Hdl & Hhe & Hmie & Hse).
    unfold instant, ymd2ord. rewrite Hye, Hme, Hdl, Hhe, Hmie, Hse, Hue, Hoe. lia.
Qed.

Lemma get_date_range_contains_now_witness :
  exists start end_,
    ListEvents.get_date_range Samples.now_2024_02_15 3 = Ok (start, end_) /\
    instant start <= instant Samples.now_2024_02_15 <= instant end_.
Proof.
  destruct (get_date_range_contains_now Samples.now_2024_02_15 3)
    as (start & end_ & Hrun & Hin & _); [reflexivity | reflexivity | lia |].
  exists start, end_. split; [exact Hrun | exact Hin].
Defined.

(** X2: outside one to thirteen months: a number of months below one gives
    the window of one month, and fourteen months or more make the wrapped
    start month zero or negative, so that [replace] raises [ValueError]. *)
Theorem get_date_range_months_out_of_range (now : datetime) (months : Z) :
  check_fields now = true ->
  (months <= 1 -> ListEvents.get_date_range now months = ListEvents.get_date_range now 1) /\
  (14 <= months -> ListEvents.get_date_range now months = Raise ValueError).
Proof.
  intros Hnow. split; intros Hmonths.
  - unfold ListEvents.get_date_range.
    replace (0 <? months - 1) with false by (symmetry; apply Z.ltb_ge; lia).
    reflexivity.
  - apply check_fields_true in Hnow as (Hy & Hm & Hd & Hh & Hmi & Hs & Hus).
    unfold ListEvents.get_date_range, monthrange.
    replace ((1 <=? month now) && (month now <=? 12)) with true
      by (symmetry; apply andb_true_iff; split; apply Z.leb_le; lia).
    cbn [mbind result_bind snd].
    replace (0 <? months - 1) with true by (symmetry; apply Z.ltb_lt; lia).
    replace (month now <=? months - 1) with true by (symmetry; apply Z.leb_le; lia).
    assert (replace now (Some (year now - 1)) (Some (12 - (months - 1 - 1)))
                    (Some 1) (Some 0) (Some 0) (Some 0) = Raise ValueError) as ->;
      [| reflexivity].
    unfold replace.
    match goal with |- context [check_fields ?x] => destruct (check_fields x) eqn:Hx end;
      [| reflexivity].
    apply check_fields_true in Hx. cbn in Hx. lia.
Qed.

Lemma get_date_range_months_out_of_range_witness :
  ListEvents.get_date_range Samples.now_2024_02_15 0
  = ListEvents.get_date_range Samples.now_2024_02_15 1 /\
  ListEvents.get_date_range Samples.now_2024_02_15 20 = Raise ValueError.
Proof.
  split.
  - apply (get_date_range_months_out_of_range Samples.now_2024_02_15 0); [reflexivity | lia].
  - apply (get_date_range_months_out_of_range Samples.now_2024_02_15 20); [reflexivity | lia].
Defined.

(** ** Ordinals and dates *)

(** The leap years within a cycle of 400 years. *)
Lemma is_leap_cycle (a b c e : Z) :
  0 <= b <= 3 -> 0 <= c <= 24 -> 0 <= e <= 3 ->
  is_leap (a * 400 + 1 + b * 100 + c * 4 + e)
  = (e =? 3) && (negb (c =? 24) || (b =? 3)).
Proof.
  intros Hb Hc He. unfold is_leap.
  destruct (Z.eqb_spec ((a * 400 + 1 + b * 100 + c * 4 + e) mod 4) 0),
           (Z.eqb_spec ((a * 400 + 1 + b * 100 + c * 4 + e) mod 100) 0),
           (Z.eqb_spec ((a * 400 + 1 + b * 100 + c * 4 + e) mod 400) 0),
           (Z.eqb_spec e 3), (Z.eqb_spec c 24), (Z.eqb_spec b 3);
    cbn [andb orb negb]; try reflexivity; exfalso; Z.div_mod_to_equations; lia.
Qed.

(** The days before a year, by its place in the cycles of 400, 100 and 4
    years. *)
Lemma days_before_year_cycle (a b c e : Z) :
  0 <= b <= 3 -> 0 <= c <= 24 -> 0 <= e <= 3 ->
  days_before_year (a * 400 + 1 + b * 100 + c * 4 + e)
  = a * 146097 + b * 36524 + c * 1461 + e * 365.
Proof.
  intros Hb Hc He. unfold days_before_year. cbn zeta.
  Z.div_mod_to_equations. lia.
Qed.

(** [ord2ymd] inverts [ymd2ord]: the date of an ordinal is a date of the
    calendar and has that ordinal. *)
Lemma ord2ymd_spec (n : Z) :
  1 <= n ->
  exists y m d,
    ord2ymd n = mkdate y m d /\
    1 <= y /\ 1 <= m <= 12 /\ 1 <= d <= days_in_month y m /\ ymd2ord y m d = n.
Proof.
  intros Hn. unfold ord2ymd. cbn zeta.
  set (n0 := n - 1).
  set (a := n0 / 146097). set (r1 := n0 mod 146097).
  set (b := r1 / 36524). set (r2 := r1 mod 36524).
  set (c := r2 / 1461). set (r3 := r2 mod 1461).
  set (e := r3 / 365). set (r4 := r3 mod 365).
  assert (n = a * 146097 + b * 36524 + c * 1461 + e * 365 + r4 + 1 /\
          0 <= a /\ 0 <= b <= 4 /\ 0 <= c <= 24 /\ 0 <= e <= 4 /\ 0 <= r4 < 365 /\
          (b = 4 -> c = 0 /\ e = 0 /\ r4 = 0) /\ (e = 4 -> c <= 23 /\ r4 = 0)) as Hcycle.
  { subst a r1 b r2 c r3 e r4 n0. Z.div_mod_to_equations. lia. }
  clearbody a b c e r4. clear n0 r1 r2 r3.
  destruct Hcycle as (-> & Ha & Hb & Hc & He & Hr & Hb4 & He4).
  destruct ((e =? 4) || (b =? 4)) eqn:Hlast.
  - (* the last day of a leap year *)
    eexists _, _, _. split; [reflexivity |].
    assert (exists b' c',
              a * 400 + 1 + b * 100 + c * 4 + e - 1 = a * 400 + 1 + b' * 100 + c' * 4 + 3 /\
              0 <= b' <= 3 /\ 0 <= c' <= 24 /\ (c' <> 24 \/ b' = 3) /\
              b * 36524 + c * 1461 + e * 365 + r4 = b' * 36524 + c' * 1461 + 3 * 365 + 365)
      as (b' & c' & -> & Hb' & Hc' & Hleap & Hdays).
    { apply orb_true_iff in Hlast as [He' | Hb'].
      - apply Z.eqb_eq in He'. exists b, c. lia.
      - apply Z.eqb_eq in Hb'. exists 3, 24. lia. }
    unfold ymd2ord, days_in_month, days_before_month.
    rewrite days_before_year_cycle, is_leap_cycle by lia.
    replace ((3 =? 3) && (negb (c' =? 24) || (b' =? 3))) with true.
    + cbn. lia.
    + symmetry. apply andb_true_iff. split; [reflexivity |]. apply orb_true_iff.
      destruct Hleap as [Hc24 | ->]; [left | right; reflexivity].
      apply negb_true_iff, Z.eqb_neq, Hc24.
  - apply orb_false_iff in Hlast as [He' Hb']. apply Z.eqb_neq in He', Hb'.
    rewrite <- (is_leap_cycle a b c e) by lia.
    set (y := a * 400 + 1 + b * 100 + c * 4 + e).
    rewrite Z.shiftr_div_pow2 by lia. change (2 ^ 5) with 32.
    set (m0 := (r4 + 50) / 32).
    assert (32 * m0 <= r4 + 50 < 32 * m0 + 32) as Hm0
      by (subst m0; Z.div_mod_to_equations; lia).
    assert (1 <= m0 <= 12) as Hcases by lia. apply month_cases in Hcases.
    assert (days_before_year y = a * 146097 + b * 36524 + c * 1461 + e * 365) as Hy
      by (subst y; apply days_before_year_cycle; lia).
    assert (1 <= y) as Hy1 by (subst y; lia).
    clearbody m0 y.
    destruct (is_leap y) eqn:Hleap;
      repeat (destruct Hcases as [-> | Hcases]); try subst m0;
      repeat match goal with
             | |- context [Z.pos ?p - 1] =>
                 let v := eval vm_compute in (Z.pos p - 1) in change (Z.pos p - 1) with v
             end;
      cbn;
      match goal with |- context [?r <? ?k] => destruct (Z.ltb_spec r k) end;
      try lia;
      (eexists _, _, _; split; [reflexivity |]);
      unfold ymd2ord, days_in_month, days_before_month; rewrite Hy, Hleap;
      cbn; lia.
Qed.

Lemma days_before_year_mono (y y' : Z) :
  y <= y' -> days_before_year y <= days_before_year y'.
Proof.
  intros Hle. destruct (Z.eq_dec y y') as [-> | Hne]; [lia |].
  pose proof (days_before_year_step y y' ltac:(lia)).
  destruct (is_leap y); lia.
Qed.

(** An ordinal up to [MAXORDINAL] is a day of a year up to 9999. *)
Lemma ymd2ord_max_year (y m d : Z) :
  1 <= m <= 12 -> 1 <= d <= days_in_month y m -> ymd2ord y m d <= MAXORDINAL -> y <= 9999.
Proof.
  intros Hm Hd Hmax. destruct (Z.le_gt_cases y 9999) as [Hy | Hy]; [exact Hy | exfalso].
  pose proof (days_before_year_mono 10000 y ltac:(lia)) as Hmono.
  pose proof (day_of_year_bounds y m d Hm Hd) as Hday.
  change (days_before_year 10000) with 3652059 in Hmono.
  unfold ymd2ord, MAXORDINAL in Hmax. lia.
Qed.

(** ** The day window *)

(** X3: [download_notes.get_date_range]: when the day [days] days before the
    clock reading is a date of the calendar (years 1 to 9999), the window
    starts at 00:00:00.000000 of that day and ends at 23:59:59.999999 of
    the current day, with the offset of the clock reading.  It spans
    [days + 1] whole days less a microsecond, and for [days >= 0] it holds
    the clock reading.  Otherwise the subtraction raises [OverflowError]. *)
Theorem download_notes_get_date_range_window (now : datetime) (days : Z) :
  check_fields now = true ->
  let ordinal := toordinal (date_of now) - days in
  (1 <= ordinal <= MAXORDINAL ->
   exists start end_,
     DownloadNotes.get_date_range now days = InRange (Ok (start, end_)) /\
     check_fields start = true /\ check_fields end_ = true /\
     toordinal (date_of start) = ordinal /\
     hour start = 0 /\ minute start = 0 /\ second start = 0 /\ microsecond start = 0 /\
     date_of end_ = date_of now /\
     hour end_ = 23 /\ minute end_ = 59 /\ second end_ = 59 /\ microsecond end_ = 999999 /\
     utcoffset start = utcoffset now /\ utcoffset end_ = utcoffset now /\
     instant end_ - instant start = (days + 1) * 86400000000 - 1 /\
     (0 <= days -> instant start <= instant now <= instant end_)) /\
  (~ 1 <= ordinal <= MAXORDINAL -> DownloadNotes.get_date_range now days = OverflowError).
Proof.
  intros Hnow ordinal. unfold DownloadNotes.get_date_range, minus_days.
  change (ymd2ord (year now) (month now) (day now) - days) with ordinal.
  split; intros Hrange.
  - replace ((0 <? ordinal) && (ordinal <=? MAXORDINAL)) with true
      by (symmetry; apply andb_true_iff; split; [apply Z.ltb_lt | apply Z.leb_le]; lia).
    destruct (ord2ymd_spec ordinal ltac:(lia)) as (y & m & d & -> & Hy & Hm & Hd & Hord).
    pose proof (ymd2ord_max_year y m d Hm Hd ltac:(lia)) as Hy'.
    cbn [d_year d_month d_day].
    apply check_fields_true in Hnow as (Hny & Hnm & Hnd & Hnh & Hnmi & Hns & Hnus).
    unfold replace_time. cbn [year month day hour minute second microsecond utcoffset].
    assert (check_fields {| year := y; month := m; day := d; hour := 0; minute := 0;
                            second := 0; microsecond := 0; utcoffset := utcoffset now |}
            = true) as Hstart by (apply check_fields_true; cbn; lia).
    assert (check_fields {| year := year now; month := month now; day := day now;
                            hour := 23; minute := 59; second := 59; microsecond := 999999;
                            utcoffset := utcoffset now |}
            = true) as Hend by (apply check_fields_true; cbn; lia).
    rewrite Hstart. cbn [mbind result_bind]. rewrite Hend. cbn [mbind result_bind].
    eexists _, _. split; [reflexivity |].
    split; [exact Hstart |]. split; [exact Hend |].
    unfold toordinal, date_of, instant.
    cbn [year month day hour minute second microsecond utcoffset d_year d_month d_day].
    rewrite Hord. subst ordinal. unfold toordinal, date_of.
    cbn [d_year d_month d_day].
    repeat split; lia.
  - replace ((0 <? ordinal) && (ordinal <=? MAXORDINAL)) with false; [reflexivity |].
    symmetry. apply andb_false_iff.
    destruct (Z.ltb_spec 0 ordinal); [right; apply Z.leb_gt; lia | now left].
Qed.

Lemma download_notes_get_date_range_window_witness :
  (exists start end_,
     DownloadNotes.get_date_range Samples.now_2024_02_15 30 = InRange (Ok (start, end_)) /\
     toordinal (date_of start) = toordinal (mkdate 2024 1 16) /\
     date_of end_ = mkdate 2024 2 15) /\
  DownloadNotes.get_date_range Samples.now_2024_02_15 800000 = OverflowError.
Proof.
  split.
  - destruct (download_notes_get_date_range_window Samples.now_2024_02_15 30)
      as [Hin _]; [reflexivity |].
    destruct Hin as (start & end_ & Hrun & _ & _ & Hord & _ & _ & _ & _ & Hend & _);
      [vm_compute; split; discriminate |].
    exists start, end_. split; [exact Hrun |]. split; [exact Hord | exact Hend].
  - apply (download_notes_get_date_range_window Samples.now_2024_02_15 800000);
      [reflexivity |].
    vm_compute. intros [H _]. now apply H.
Defined.

(** ** The report, continued *)

Section Report.
Import ListEvents Spec Vocabulary.

Variable user_email : string.

(** An iteration that does not raise has met an admissible event. *)
Lemma body_ok_admissible (st st' : Fold) (e : Event) :
  body user_email st e = Ok st' -> admissible user_email e = true.
Proof.
  unfold body, admissible, selected, timed.
  destruct (1 <? length (get (attendees e) []))%nat; [| reflexivity].
  destruct (getitem (attendees e)) as [atts |]; cbn [mbind result_bind]; [| discriminate].
  destruct (accepted_attendees atts) as [names |]; cbn [mbind result_bind]; [| discriminate].
  destruct (bool_decide (user_email ∈ names)); [| reflexivity].
  destruct (start e) as [s |]; cbn [getitem mbind result_bind]; [| discriminate].
  destruct (dateTime s) as [t0 |]; cbn [parser_parse mbind result_bind]; [| discriminate].
  destruct (end_ e) as [en |]; cbn [getitem mbind result_bind]; [| discriminate].
  destruct (dateTime en) as [t1 |]; cbn [parser_parse mbind result_bind]; [| discriminate].
  destruct (match current st with Some _ => _ | None => _ end) as [[[? ?] ?] ?].
  destruct (summary e) as [sm |]; cbn [getitem mbind result_bind]; [| discriminate].
  destruct (creator e) as [c |]; cbn [getitem mbind result_bind]; [| discriminate].
  destruct (creator_email c) as [ce |]; cbn [getitem mbind result_bind]; [| discriminate].
  intros _. rewrite !bool_decide_eq_true_2 by eauto. reflexivity.
Qed.

Lemma loop_ok_admissible (events : list Event) :
  forall st st' : Fold,
    loop user_email st events = Ok st' ->
    Forall (fun e => admissible user_email e = true) events.
Proof.
  induction events as [| e events IH]; intros st st'; [constructor |].
  cbn [loop]. destruct (body user_email st e) as [st1 |] eqn:Hbody;
    cbn [mbind result_bind]; [| discriminate].
  intros Hloop. constructor; [eapply body_ok_admissible, Hbody | eapply IH, Hloop].
Qed.

(** A selected admissible event adds its row to [meetings.csv] and one to
    the count. *)
Lemma body_row (st : Fold) (e : Event) :
  admissible user_email e = true -> is_selected user_email e = true ->
  exists row st',
    meeting_row e = Some row /\
    body user_email st e = Ok st' /\
    rows st' = rows st ++ [row] /\ total st' = S (total st).
Proof.
  unfold admissible, is_selected, selected, body, meeting_row, timed.
  destruct (1 <? length (get (attendees e) []))%nat; [| discriminate].
  destruct (attendees e) as [atts |]; cbn [getitem mbind result_bind option_bind];
    [| discriminate].
  destruct (accepted_attendees atts) as [names |]; cbn [mbind result_bind option_bind];
    [| discriminate].
  destruct (bool_decide (user_email ∈ names)); [| discriminate].
  intros Hadm _.
  destruct (start e) as [s |]; [| discriminate].
  cbn [getitem mbind result_bind option_bind].
  destruct (dateTime s) as [t0 |]; [| cbn in Hadm; discriminate].
  destruct (end_ e) as [en |]; [| cbn in Hadm; discriminate].
  cbn [getitem parser_parse mbind result_bind option_bind].
  destruct (dateTime en) as [t1 |]; [| cbn in Hadm; discriminate].
  destruct (summary e) as [sm |]; [| cbn in Hadm; discriminate].
  destruct (creator e) as [c |]; [| cbn in Hadm; discriminate].
  cbn [getitem parser_parse mbind result_bind option_bind].
  destruct (creator_email c) as [ce |]; [| cbn in Hadm; discriminate].
  cbn [getitem parser_parse mbind result_bind option_bind].
  destruct (match current st with Some _ => _ | None => _ end) as [[[? ?] ?] ?].
  eexists _, _. repeat split.
Qed.

(** The rows and the count of the loop on admissible events. *)
Lemma loop_rows (events : list Event) :
  Forall (fun e => admissible user_email e = true) events ->
  forall st : Fold,
    exists st',
      loop user_email st events = Ok st' /\
      rows st'
      = rows st ++ omap meeting_row (filter (fun e => is_selected user_email e = true) events) /\
      total st'
      = (total st + length (filter (fun e => is_selected user_email e = true) events))%nat.
Proof.
  induction 1 as [| e events Hadm _ IH]; intros st.
  - exists st. cbn. rewrite app_nil_r. repeat split. lia.
  - cbn [loop]. rewrite filter_cons.
    destruct (is_selected user_email e) eqn:Hsel.
    + destruct (body_row st e Hadm Hsel) as (row & st1 & Hrow & -> & Hrows & Htotal).
      cbn [mbind result_bind].
      destruct (IH st1) as (st' & -> & Hrows' & Htotal').
      exists st'. rewrite decide_True by reflexivity.
      cbn [omap list_omap length]. rewrite Hrow, Hrows', Htotal', Hrows, Htotal, <- app_assoc.
      repeat split. lia.
    + rewrite (body_not_selected user_email st e Hadm Hsel). cbn [mbind result_bind].
      rewrite decide_False by discriminate. apply IH.
Qed.

End Report.

(** X4: the report succeeds exactly on the inputs all of whose events are
    admissible: in every event with more than one attendee the accepted
    attendees have an email, and every selected event has a [dateTime]
    start and end, a summary and a creator with an email.  Any other input
    makes it raise. *)
Theorem export_events_to_csv_succeeds_iff (user_email : string) (events : list Event) :
  (exists out, ListEvents.export_events_to_csv events user_email = Ok out) <->
  Forall (fun e => Spec.admissible user_email e = true) events.
Proof.
  unfold ListEvents.export_events_to_csv. split.
  - intros [out Hout].
    destruct (ListEvents.loop user_email ListEvents.initial events) as [st |] eqn:Hloop;
      [| discriminate].
    eapply loop_ok_admissible, Hloop.
  - intros Hadm.
    destruct (loop_rows user_email events Hadm ListEvents.initial) as (st & -> & _).
    eexists. reflexivity.
Qed.

(** X5: [meetings.csv] holds the header and then one row for each selected
    meeting, in input order, and nothing for the other events: the row has
    the date key of the start, the summary, the duration [end - start], the
    category [TBD], the creator's display name (the email without one), and
    the number and the comma-separated names of the accepted attendees.  The
    count of the closing message is the number of rows under the header. *)
Theorem export_events_to_csv_meeting_rows (user_email : string) (events : list Event) :
  Forall (fun e => Spec.admissible user_email e = true) events ->
  exists out,
    ListEvents.export_events_to_csv events user_email = Ok out /\
    ListEvents.meetings_csv out
    = ListEvents.MeetingsHeader
      :: omap Vocabulary.meeting_row
           (filter (fun e => Spec.is_selected user_email e = true) events) /\
    ListEvents.written out
    = length (filter (fun e => Spec.is_selected user_email e = true) events) /\
    length (ListEvents.meetings_csv out) = S (ListEvents.written out).
Proof.
  intros Hadm. unfold ListEvents.export_events_to_csv.
  destruct (loop_rows user_email events Hadm ListEvents.initial) as (st & -> & Hrows & Htotal).
  cbn [mbind result_bind]. eexists. split; [reflexivity |].
  cbn [ListEvents.meetings_csv ListEvents.written].
  cbn [ListEvents.initial ListEvents.rows ListEvents.total app Nat.add] in Hrows, Htotal.
  rewrite Hrows, Htotal. repeat split.
  cbn [length]. f_equal.
  clear Hrows Htotal. induction Hadm as [| e events Hadm _ IH]; [reflexivity |].
  rewrite filter_cons. case_decide as Hsel; [| exact IH].
  destruct (body_row user_email ListEvents.initial e Hadm Hsel) as (row & _ & Hrow & _).
  cbn [omap list_omap]. rewrite Hrow. cbn [length]. now rewrite IH.
Qed.

Lemma export_events_to_csv_meeting_rows_witness :
  exists out,
    ListEvents.export_events_to_csv [Samples.standup; Samples.focus; Samples.sync] Samples.me
    = Ok out /\
    ListEvents.meetings_csv out
    = [ListEvents.MeetingsHeader;
       ListEvents.Meeting "2024-03-04" "Standup" (timedelta_of_minutes 30) "TBD"
         "other@example.com" 2 "user@example.com, other@example.com";
       ListEvents.Meeting "2024-03-05" "Sync" (timedelta_of_minutes 15) "TBD"
         "other@example.com" 2 "user@example.com, other@example.com"].
Proof.
  destruct (export_events_to_csv_meeting_rows Samples.me
              [Samples.standup; Samples.focus; Samples.sync])
    as (out & Hrun & Hrows & _).
  - repeat constructor.
  - exists out. split; [exact Hrun |]. rewrite Hrows. reflexivity.
Defined.

(** The names of the accepted attendees when each of them has an email
    and a display name: the display names, the email being read and then
    not used. *)
Lemma accepted_attendees_display_names (user_email : string) (atts : list Attendee) :
  Forall (fun a => responseStatus a = Some "accepted" ->
                   is_Some (email a) /\
                   exists name, displayName a = Some name /\ name <> user_email) atts ->
  exists names, ListEvents.accepted_attendees atts = Ok names /\ user_email ∉ names.
Proof.
  induction 1 as [| a atts Ha _ (names & IH & Hnot)]; cbn [ListEvents.accepted_attendees].
  - exists []. split; [reflexivity | set_solver].
  - case_bool_decide as Hacc; [| exists names; split; [exact IH | exact Hnot]].
    destruct (Ha Hacc) as ([e ->] & name & -> & Hname).
    cbn [getitem mbind result_bind get]. rewrite IH. cbn [mbind result_bind].
    exists (name :: names). split; [reflexivity | set_solver].
Qed.

(** X6: the report looks for the user among the accepted attendees by display
    name where there is one: when the accepted attendees of every event
    carry a display name other than [user_email], no event is selected,
    whatever the emails are, that of the user included, and the two files
    get their header only. *)
Theorem export_events_to_csv_selects_by_display_name (user_email : string)
    (events : list Event) :
  Forall (fun e =>
            Forall (fun a => responseStatus a = Some "accepted" ->
                             is_Some (email a) /\
                             exists name, displayName a = Some name /\ name <> user_email)
                   (get (attendees e) [])) events ->
  ListEvents.export_events_to_csv events user_email
  = Ok {| ListEvents.meetings_csv := [ListEvents.MeetingsHeader];
          ListEvents.stats_csv := [ListEvents.StatsHeader];
          ListEvents.written := 0 |}.
Proof.
  intros Hnames.
  assert (forall st, ListEvents.loop user_email st events = Ok st) as Hloop.
  { induction Hnames as [| e events He _ IH]; intros st; [reflexivity |].
    cbn [ListEvents.loop].
    assert (ListEvents.body user_email st e = Ok st) as ->; [| apply IH].
    unfold ListEvents.body.
    destruct (attendees e) as [atts |]; cbn [getitem get mbind result_bind] in *;
      [| reflexivity].
    destruct (1 <? length atts)%nat; [| reflexivity].
    destruct (accepted_attendees_display_names user_email atts He) as (names & -> & Hnot).
    cbn [mbind result_bind]. now rewrite bool_decide_eq_false_2. }
  unfold ListEvents.export_events_to_csv. rewrite Hloop. reflexivity.
Qed.

Lemma export_events_to_csv_selects_by_display_name_witness :
  ListEvents.export_events_to_csv
    [{| summary := Some "Planning";
        start := Some (Samples.at_ 2024 3 4 9 0); end_ := Some (Samples.at_ 2024 3 4 10 0);
        attendees := Some [{| email := Some Samples.me; displayName := Some "The User";
                              responseStatus := Some "accepted" |};
                           {| email := Some "other@example.com"; displayName := Some "Other";
                              responseStatus := Some "accepted" |};
                           {| email := None; displayName := None;
                              responseStatus := Some "declined" |}];
        creator := None; attachments := None |}] Samples.me
  = Ok {| ListEvents.meetings_csv := [ListEvents.MeetingsHeader];
          ListEvents.stats_csv := [ListEvents.StatsHeader];
          ListEvents.written := 0 |}.
Proof.
  apply export_events_to_csv_selects_by_display_name.
  constructor; [| constructor]. cbn [get attendees].
  apply Forall_cons_2; [| apply Forall_cons_2; [| apply Forall_cons_2; [| apply Forall_nil_2]]];
    cbn; intros Hacc.
  - split; [eauto |]. exists "The User". split; [reflexivity | discriminate].
  - split; [eauto |]. exists "Other". split; [reflexivity | discriminate].
  - discriminate Hacc.
Defined.

(** ** The statistics file, continued *)

(** X8: [stats.csv] for a mapping that is not empty: the header, the day rows
    in the order of the mapping, and one averages row.  Its time is a whole
    number of seconds less than a second away from the mean of the daily
    times, and its count is the exact mean of the daily counts. *)
Theorem export_stats_to_csv_averages (stats : list (string * ListEvents.DailyStat)) :
  stats <> [] ->
  exists avg_time avg_count,
    ListEvents.export_stats_to_csv stats
    = ListEvents.StatsHeader :: (Spec.day_row <$> stats)
      ++ [ListEvents.StatsAverages avg_time avg_count] /\
    Z.abs (Spec.total_time stats - Z.of_nat (length stats) * avg_time)
    < Z.of_nat (length stats) * timedelta_of_seconds 1 /\
    avg_time mod timedelta_of_seconds 1 = 0 /\
    (avg_count * inject_Z (Z.of_nat (length stats))
     == inject_Z (Z.of_nat (Spec.total_count stats)))%Q.
Proof.
  intros Hstats. rewrite export_stats_to_csv_rows.
  destruct stats as [| r stats]; [done |]. clear Hstats.
  eexists _, _. split; [reflexivity |].
  set (n := length (r :: stats)).
  assert (0 < Z.of_nat n) as Hn by (subst n; cbn [length]; lia).
  unfold ListEvents.average_time, ListEvents.average_count, timedelta_of_seconds.
  repeat split.
  - pose proof (Z.quot_rem' (Spec.total_time (r :: stats)) (1000000 * Z.of_nat n)) as Hqr.
    pose proof (Z.rem_bound_abs (Spec.total_time (r :: stats)) (1000000 * Z.of_nat n)
                  ltac:(lia)) as Hr.
    lia.
  - rewrite Z.mul_1_l. apply Z_mod_mult.
  - unfold Qeq, Qmult, inject_Z. cbn [Qnum Qden].
    replace (Z.pos (Pos.of_nat n * 1)) with (Z.of_nat n); [lia |].
    rewrite Pos.mul_1_r. destruct n as [| n']; [lia |].
    now rewrite <- Pos.of_nat_succ, Zpos_P_of_succ_nat, Nat2Z.inj_succ.
Qed.

Lemma export_stats_to_csv_averages_witness :
  exists avg_time avg_count,
    ListEvents.export_stats_to_csv
      [("2024-03-04", ListEvents.mkDailyStat (timedelta_of_seconds 100) 2);
       ("2024-03-05", ListEvents.mkDailyStat (timedelta_of_seconds 25) 1)]
    = [ListEvents.StatsHeader;
       ListEvents.StatsDay "2024-03-04" (timedelta_of_seconds 100) 2;
       ListEvents.StatsDay "2024-03-05" (timedelta_of_seconds 25) 1;
       ListEvents.StatsAverages avg_time avg_count] /\
    avg_time mod timedelta_of_seconds 1 = 0.
Proof.
  destruct (export_stats_to_csv_averages
              [("2024-03-04", ListEvents.mkDailyStat (timedelta_of_seconds 100) 2);
               ("2024-03-05", ListEvents.mkDailyStat (timedelta_of_seconds 25) 1)])
    as (avg_time & avg_count & Hrows & _ & Hwhole & _); [discriminate |].
  exists avg_time, avg_count. split; [exact Hrows | exact Hwhole].
Defined.

(** ** The stand-alone script, continued *)

Section LegacyReport.
Import ListEvents Spec.

Variable ME : string.

Lemma merge_not_nil (k : string) (s : DailyStat) (rs : list (string * DailyStat)) :
  merge k s rs <> [].
Proof. destruct rs as [| [k' s'] rest]; cbn; [| destruct (String.eqb k k')]; discriminate. Qed.

Lemma removelast_cons (r : string * DailyStat) (rs : list (string * DailyStat)) :
  rs <> [] -> removelast (r :: rs) = r :: removelast rs.
Proof. destruct rs; [done | reflexivity]. Qed.

(** The mapping the loop leaves behind holds the runs of the entries but
    the last one, which is still in the loop variables. *)
Lemma loop_stats (events : list Event) :
  Forall (fun e => admissible ME e = true) events ->
  forall st : Fold,
    (current st = None -> current_count st = 0%nat) ->
    exists st',
      loop ME st events = Ok st' /\
      stats st' = store (removelast (pending st (runs (entries ME events)))) (stats st).
Proof.
  induction 1 as [| e events Hadm _ IH]; intros st Hcount.
  - exists st. split; [reflexivity |]. unfold pending. cbn [entries runs].
    unfold entries. rewrite filter_nil. cbn [omap list_omap runs].
    now destruct (current st).
  - cbn [loop]. rewrite entries_cons.
    destruct (is_selected ME e) eqn:Hsel.
    + destruct (body_selected ME st e Hadm Hsel) as (k & d & row & Hentry & ->).
      rewrite Hentry. cbn [mbind result_bind app].
      match goal with |- context [loop _ ?st1 _] =>
        destruct (IH st1) as (st' & Hloop & Hstats); [discriminate |]
      end.
      exists st'. split; [exact Hloop |].
      rewrite Hstats. unfold pending. cbn [current cumulative_time current_count stats runs].
      set (rs := runs (entries ME events)).
      destruct (current st) as [cur |] eqn:Hcur.
      * destruct (String.eqb_spec cur k) as [-> | Hne].
        -- rewrite merge_merge. cbn. now rewrite Nat.add_1_r.
        -- rewrite merge_other by (now apply String.eqb_neq).
           rewrite removelast_cons by apply merge_not_nil. reflexivity.
      * now rewrite Hcount.
    + rewrite (body_not_selected ME st e Hadm Hsel). cbn [mbind result_bind app].
      apply IH, Hcount.
Qed.

End LegacyReport.

(** X9: what [list-calendar-events.py] reports on admissible events: its
    statistics are the runs of the selected meetings without the last run,
    which the loop never stores.  With meetings on one day only, or none,
    nothing is left and the averages divide by zero; otherwise [stats.csv]
    has the rows of the days before the last one and their averages.
    [wallaby] stores every run. *)
Theorem legacy_main_omits_last_run (ME : string) (events : list Event) :
  events <> [] ->
  Forall (fun e => Spec.admissible ME e = true) events ->
  let reported := Spec.store (removelast (Spec.runs (Spec.entries ME events))) [] in
  (reported = [] -> Legacy.main ME events = Raise ZeroDivisionError) /\
  (reported <> [] ->
   exists out,
     Legacy.main ME events = Ok (Some out) /\
     ListEvents.stats_csv out
     = ListEvents.StatsHeader :: (Spec.day_row <$> reported)
       ++ [ListEvents.StatsAverages
             (ListEvents.average_time (Spec.total_time reported) (length reported))
             (ListEvents.average_count (Spec.total_count reported) (length reported))]) /\
  ListEvents.daily_stats events ME = Ok (Spec.store (Spec.runs (Spec.entries ME events)) []).
Proof.
  intros Hevents Hadm reported.
  destruct (loop_stats ME events Hadm ListEvents.initial) as (st & Hloop & Hstats);
    [reflexivity |].
  unfold Spec.pending in Hstats. cbn [ListEvents.initial ListEvents.current ListEvents.stats]
    in Hstats. fold reported in Hstats.
  assert (Legacy.main ME events
          = (stats_rows ← Legacy.stats_file reported;
             Ok (Some {| ListEvents.meetings_csv := ListEvents.rows st;
                         ListEvents.stats_csv := stats_rows;
                         ListEvents.written := ListEvents.total st |}))) as ->.
  { unfold Legacy.main. destruct events as [| e events]; [done |].
    rewrite Hloop. cbn [mbind result_bind]. now rewrite Hstats. }
  unfold Legacy.stats_file. rewrite day_rows_spec.
  split; [| split].
  - intros ->. reflexivity.
  - intros Hsome. destruct reported as [| r reported'] eqn:Hr; [done |].
    cbn [length Nat.eqb mbind result_bind]. eexists. split; [reflexivity |].
    cbn [ListEvents.stats_csv app]. rewrite Z.add_0_l. reflexivity.
  - now apply daily_stats_runs.
Qed.

Lemma legacy_main_omits_last_run_witness :
  Legacy.main Samples.me [Samples.standup; Samples.review] = Raise ZeroDivisionError /\
  exists out,
    Legacy.main Samples.me [Samples.standup; Samples.sync; Samples.retro] = Ok (Some out) /\
    ListEvents.stats_csv out
    = [ListEvents.StatsHeader;
       ListEvents.StatsDay "2024-03-04" (timedelta_of_minutes 30) 1;
       ListEvents.StatsDay "2024-03-05" (timedelta_of_minutes 15) 1;
       ListEvents.StatsAverages (timedelta_of_seconds 1350) (2 # 2)].
Proof.
  split.
  - apply (legacy_main_omits_last_run Samples.me [Samples.standup; Samples.review]);
      [discriminate | repeat constructor | reflexivity].
  - destruct (legacy_main_omits_last_run Samples.me
                [Samples.standup; Samples.sync; Samples.retro])
      as (_ & Hsome & _); [discriminate | repeat constructor |].
    destruct Hsome as (out & Hrun & Hrows); [discriminate |].
    exists out. split; [exact Hrun |]. rewrite Hrows. reflexivity.
Defined.

(** ** The filename sanitiser, continued *)

Lemma chars_of_inj (s1 s2 : string) :
  list_ascii_of_string s1 = list_ascii_of_string s2 -> s1 = s2.
Proof.
  intros Heq. apply (f_equal string_of_list_ascii) in Heq.
  now rewrite !string_of_list_ascii_of_string in Heq.
Qed.

(** A substitution leaves a string without characters of the class as it
    is. *)
Lemma re_sub_class_id (chars repl s : string) :
  (forall c, c ∈ list_ascii_of_string s -> char_in c chars = false) ->
  re_sub_class chars repl s = s.
Proof.
  induction s as [| c s IH]; intros Hs; [reflexivity |].
  cbn [re_sub_class]. rewrite (Hs c) by (cbn; left).
  rewrite IH; [reflexivity |]. intros c' Hc'. apply Hs. cbn. now right.
Qed.

(** [rstrip] leaves a string that does not end with a character of the
    set as it is. *)
Lemma rstrip_id (chars s : string) :
  (forall c, last (list_ascii_of_string s) = Some c -> char_in c chars = false) ->
  rstrip chars s = s.
Proof.
  intros Hlast. destruct (rstrip_spec chars s) as (dropped & Heq & Hall & _).
  destruct (last dropped) as [c |] eqn:Hd.
  - exfalso. apply last_Some in Hd as [l' ->].
    rewrite Forall_app, Forall_singleton in Hall. destruct Hall as [_ Hc].
    rewrite (Hlast c) in Hc; [discriminate |].
    now rewrite Heq, app_assoc, last_snoc.
  - apply last_None in Hd as ->. rewrite app_nil_r in Heq.
    symmetry. now apply chars_of_inj.
Qed.

(** The characters of a sanitised name are replaced characters of the
    title, at most 200 of them, the last not a dot or a space. *)
Lemma sanitize_filename_chars (s : string) :
  exists dropped,
    take 200 (Spec.sanitized_char <$> list_ascii_of_string s)
    = list_ascii_of_string (DownloadNotes.sanitize_filename s) ++ dropped /\
    (forall c, last (list_ascii_of_string (DownloadNotes.sanitize_filename s)) = Some c ->
               char_in c ". " = false).
Proof.
  unfold DownloadNotes.sanitize_filename.
  set (replaced := re_sub_class DownloadNotes.control_chars "_"
                     (re_sub_class DownloadNotes.invalid_chars "_" s)).
  set (cut := if (200 <? String.length replaced)%nat then slice_to 200 replaced else replaced).
  assert (list_ascii_of_string cut
          = take 200 (Spec.sanitized_char <$> list_ascii_of_string s)) as Hcut.
  { rewrite <- sanitize_substitutions. fold replaced. subst cut.
    destruct (200 <? String.length replaced)%nat eqn:Hlen.
    - apply chars_of_slice_to.
    - apply Nat.ltb_ge in Hlen. rewrite chars_of_length in Hlen.
      now rewrite take_ge. }
  destruct (rstrip_spec ". " cut) as (dropped & Heq & _ & Hlast).
  exists dropped. rewrite <- Hcut. split; [exact Heq | exact Hlast].
Qed.

(** X10: a sanitised name holds none of the characters the sanitiser replaces,
    so no path separator: joined to a directory it names a file of that
    directory.  Sanitising is idempotent: a sanitised name is left as it
    is. *)
Theorem sanitize_filename_safe (s : string) :
  (forall c, c ∈ list_ascii_of_string (DownloadNotes.sanitize_filename s) ->
             char_in c (DownloadNotes.invalid_chars +:+ DownloadNotes.control_chars) = false) /\
  char_in "/" (DownloadNotes.sanitize_filename s) = false /\
  DownloadNotes.sanitize_filename (DownloadNotes.sanitize_filename s)
  = DownloadNotes.sanitize_filename s.
Proof.
  destruct (sanitize_filename_chars s) as (dropped & Heq & Hlast).
  set (t := DownloadNotes.sanitize_filename s) in *.
  assert (forall c, c ∈ list_ascii_of_string t ->
                    char_in c (DownloadNotes.invalid_chars +:+ DownloadNotes.control_chars)
                    = false) as Hclean.
  { intros c Hc.
    assert (c ∈ take 200 (Spec.sanitized_char <$> list_ascii_of_string s)) as Hin
      by (rewrite Heq; set_solver).
    apply elem_of_take in Hin as (i & Hi & _).
    apply list_lookup_fmap_Some in Hi as (c' & -> & _).
    unfold Spec.sanitized_char.
    destruct (char_in c' _) eqn:Hc'; [reflexivity | exact Hc']. }
  assert (String.length t <= 200)%nat as Hlen.
  { rewrite chars_of_length.
    assert (length (take 200 (Spec.sanitized_char <$> list_ascii_of_string s)) <= 200)%nat
      as Hle by (rewrite length_take; lia).
    rewrite Heq, length_app in Hle. lia. }
  split; [exact Hclean |]. split.
  - destruct (char_in "/" t) eqn:Hslash; [| reflexivity].
    assert ("/"%char ∈ list_ascii_of_string t) as Hin.
    { clear -Hslash. induction t as [| c t IH]; [discriminate |].
      cbn [char_in list_ascii_of_string] in Hslash |- *.
      apply orb_true_iff in Hslash as [Hc | Ht].
      - apply Ascii.eqb_eq in Hc as <-. left.
      - right. now apply IH. }
    apply Hclean in Hin. discriminate.
  - unfold DownloadNotes.sanitize_filename. fold t.
    rewrite (re_sub_class_id DownloadNotes.invalid_chars).
    + rewrite (re_sub_class_id DownloadNotes.control_chars).
      * replace (200 <? String.length t)%nat with false
          by (symmetry; apply Nat.ltb_ge; lia).
        now apply rstrip_id.
      * intros c Hc. apply Hclean in Hc. rewrite char_in_app in Hc.
        now apply orb_false_iff in Hc as [_ Hc].
    + intros c Hc. apply Hclean in Hc. rewrite char_in_app in Hc.
      now apply orb_false_iff in Hc as [Hc _].
Qed.

(** ** The Gemini note test *)

Lemma prefix_app_inv (p q s : string) :
  String.prefix (p +:+ q) s = true ->
  exists rest, s = p +:+ rest /\ String.prefix q rest = true.
Proof.
  revert s. induction p as [| c p IH]; intros s.
  - intros Hq. now exists s.
  - change (String c p +:+ q) with (String c (p +:+ q)).
    destruct s as [| c' s]; cbn [String.prefix]; [discriminate |].
    destruct (Ascii.ascii_dec c c') as [-> | Hne]; [| discriminate].
    intros (rest & -> & Hq)%IH. now exists rest.
Qed.

Lemma contains_skip (sub p s : string) :
  contains sub s = true -> contains sub (p +:+ s) = true.
Proof.
  intros Hs. induction p as [| c p IH]; [exact Hs |].
  change (String c p +:+ s) with (String c (p +:+ s)).
  cbn [contains]. rewrite IH. apply orb_true_r.
Qed.

Lemma contains_prefix (sub s : string) :
  String.prefix sub s = true -> contains sub s = true.
Proof. destruct s; cbn [contains]; intros ->; reflexivity. Qed.

(** A text that contains [p ++ q] contains [q]. *)
Lemma contains_app_r (p q s : string) :
  contains (p +:+ q) s = true -> contains q s = true.
Proof.
  induction s as [| c s IH]; intros H.
  - assert (String.prefix (p +:+ q) "" = true) as Hpre
      by (cbn [contains] in H; now rewrite orb_false_r in H).
    apply prefix_app_inv in Hpre as (rest & Hs & Hq).
    rewrite Hs. apply contains_skip, contains_prefix, Hq.
  - cbn [contains] in H. apply orb_true_iff in H as [Hpre | Hrest].
    + apply prefix_app_inv in Hpre as (rest & Hs & Hq).
      rewrite Hs. apply contains_skip, contains_prefix, Hq.
    + cbn [contains]. rewrite (IH Hrest). apply orb_true_r.
Qed.

(** X11: an attachment is taken for a Gemini note exactly when its MIME type
    is that of a Google document and its title, in lower case, contains
    [by gemini] or [gemini notes]; the indicator [notes by gemini] of the
    source adds nothing to these two.  An attachment without a title or
    without a MIME type is not a note. *)
Theorem is_gemini_note_iff (attachment : Attachment) :
  is_gemini_note attachment = true <->
  mimeType attachment = Some "application/vnd.google-apps.document" /\
  exists title_,
    title attachment = Some title_ /\
    (contains "by gemini" (lower title_) = true \/
     contains "gemini notes" (lower title_) = true).
Proof.
  unfold is_gemini_note, gemini_indicators.
  cbn [existsb]. rewrite orb_false_r, andb_true_iff, !orb_true_iff.
  split.
  - intros [Hmime Hind]. split.
    + destruct (mimeType attachment) as [m |]; cbn [get] in Hmime; [| discriminate].
      now apply String.eqb_eq in Hmime as ->.
    + destruct (title attachment) as [t |]; cbn [get] in Hind.
      * exists t. split; [reflexivity |].
        destruct Hind as [Hnotes | [Hgn | Hby]]; [left | now right | now left].
        now apply (contains_app_r "notes " "by gemini").
      * cbn in Hind. destruct Hind as [? | [? | ?]]; discriminate.
  - intros [-> (t & -> & Hind)]. split; [reflexivity |]. cbn [get]. tauto.
Qed.

(** ** The notes of an event *)

Section Notes.
Import DownloadNotes Spec Vocabulary.

Variable dc : DriveClient.
Variable dir : string.

(** The file system stays as it is. *)
Local Ltac unchanged fs :=
  exists fs; rewrite ?Nat.add_0_r;
  split; [reflexivity | split; [done | split; [lia | intros ? ? [? ?]; congruence]]].

Lemma candidate_in_dir (first : string) (new_name : nat -> string) (n : nat) :
  exists name, candidate dir first new_name n = path_join dir name.
Proof. destruct n as [| n]; cbn [candidate]; eauto. Qed.

(** One attachment: it is asked for when it is a Gemini note with a file
    id, counted when its download completes, and written, to a path that
    was free, when its download opens the file. *)
Lemma download_one_exact (fs : gmap string File) (count i : nat) (att : Attachment) :
  exists fs',
    download_one dc dir (fs, count) i att
    = Ok (fs', (count + (if completes dc att then 1 else 0))%nat) /\
    fs ⊆ fs' /\
    size fs' = (size fs + (if writes dc att then 1 else 0))%nat /\
    (forall p, fs !! p = None -> is_Some (fs' !! p) ->
               (exists text, fs' !! p = Some (NoteFile text)) /\
               (exists name, p = path_join dir name) /\
               last_char p = Some "t"%char).
Proof.
  unfold download_one, completes, writes, downloadable.
  destruct (is_gemini_note att); [| unchanged fs].
  destruct (fileId att) as [[| c id] |]; try unchanged fs.
  set (safe := sanitize_filename _).
  destruct (first_free_candidate fs dir (safe +:+ ".txt") (note_new_name safe)
              (note_new_name_inj safe)) as (n & -> & Hfree & _).
  cbn [mbind result_bind]. unfold download_document_as_text.
  set (q := candidate dir (safe +:+ ".txt") (note_new_name safe) n) in *.
  assert (forall f p, fs !! p = None -> is_Some (<[q := NoteFile f]> fs !! p) ->
                      (exists text, <[q := NoteFile f]> fs !! p = Some (NoteFile text)) /\
                      (exists name, p = path_join dir name) /\
                      last_char p = Some "t"%char) as Hnew.
  { intros f p Hp Hsome. destruct (decide (p = q)) as [-> | Hne].
    - rewrite lookup_insert_eq. split; [eauto |]. split.
      + apply candidate_in_dir.
      + apply note_candidate_txt.
    - rewrite lookup_insert_ne, Hp in Hsome by done. now destruct Hsome. }
  destruct (export_media dc (String c id)) as [text | partial |].
  - eexists. rewrite Nat.add_1_r. split; [reflexivity |].
    split; [now apply insert_subseteq |].
    split; [rewrite Nat.add_1_r; now apply map_size_insert_None | apply Hnew].
  - eexists. rewrite Nat.add_0_r. split; [reflexivity |].
    split; [now apply insert_subseteq |].
    split; [rewrite Nat.add_1_r; now apply map_size_insert_None | apply Hnew].
  - unchanged fs.
Qed.

Lemma download_loop_exact (atts : list Attachment) :
  forall (fs : gmap string File) (count i : nat),
  exists fs',
    download_loop dc dir (fs, count) i atts
    = Ok (fs', (count + length (filter (fun a => completes dc a = true) atts))%nat) /\
    fs ⊆ fs' /\
    size fs' = (size fs + length (filter (fun a => writes dc a = true) atts))%nat /\
    (forall p, fs !! p = None -> is_Some (fs' !! p) ->
               (exists text, fs' !! p = Some (NoteFile text)) /\
               (exists name, p = path_join dir name) /\
               last_char p = Some "t"%char).
Proof.
  induction atts as [| att atts IH]; intros fs count i; cbn [download_loop].
  - rewrite !filter_nil. cbn [length]. unchanged fs.
  - destruct (download_one_exact fs count i att) as (fs1 & -> & Hsub1 & Hsize1 & Hnew1).
    cbn [mbind result_bind].
    destruct (IH fs1 (count + (if completes dc att then 1 else 0))%nat (S i))
      as (fs2 & -> & Hsub2 & Hsize2 & Hnew2).
    exists fs2. rewrite !filter_cons. split; [| split; [| split]].
    + do 2 f_equal. destruct (completes dc att); [rewrite decide_True by done |
        rewrite decide_False by done]; cbn [length]; lia.
    + by etrans.
    + rewrite Hsize2, Hsize1.
      destruct (writes dc att); [rewrite decide_True by done |
        rewrite decide_False by done]; cbn [length]; lia.
    + intros p Hp Hsome. destruct (fs1 !! p) as [f |] eqn:Hp1.
      * destruct (Hnew1 p Hp) as ([text Htext] & Hname & Hlast); [by rewrite Hp1 |].
        split; [| split; assumption].
        exists text. eapply lookup_weaken; [exact Htext | exact Hsub2].
      * now apply Hnew2.
Qed.

End Notes.


(** ** The archive, continued *)

Section ArchiveFiles.
Import DownloadNotes Spec Vocabulary.

Variable user_email output_dir : string.
Variable drive_client : option DriveClient.

(** Filing one event, with the notes and their counter. *)
Lemma save_event_files (a : Archive) (e : Event) (d : date) :
  counters (stats a) -> counters (gemini_stats a) -> event_date e = Some d ->
  let cand := candidate (event_dir user_email output_dir e d) (event_filename e)
                        (event_new_filename (event_filename e)) in
  exists n a' g,
    save_event user_email output_dir drive_client a e = Ok a' /\
    files a !! cand n = None /\
    files a' !! cand n = Some (EventFile e) /\
    files a ⊆ files a' /\
    saved a' = saved a ++ [cand n] /\
    counters (stats a') /\ counters (gemini_stats a') /\
    gemini_stats a !! get_attendance_status e user_email = Some g /\
    gemini_stats a' !! get_attendance_status e user_email
    = Some (g + notes_completed drive_client e)%nat /\
    (forall s, s <> get_attendance_status e user_email ->
               gemini_stats a' !! s = gemini_stats a !! s) /\
    size (files a') = (size (files a) + 1 + notes_written drive_client e)%nat /\
    (forall p, files a !! p = None -> is_Some (files a' !! p) ->
               p = cand n \/
               (is_Some drive_client /\ exists text, files a' !! p = Some (NoteFile text))).
Proof.
  intros Hstats Hgemini Hdate cand. unfold save_event. rewrite Hdate.
  destruct (increment_ok _ 1 _ Hstats (get_attendance_status_outcome user_email e))
    as (v & Hv & -> & Hstats').
  cbn [mbind result_bind].
  destruct (first_free_candidate (files a) (event_dir user_email output_dir e d)
              (event_filename e) (event_new_filename (event_filename e))
              (event_new_filename_inj (event_filename e))) as (n & Hrun & Hfree & Htaken).
  fold cand in Hrun, Hfree, Htaken.
  unfold event_dir, event_filename in Hrun. unfold get_file_extension.
  rewrite Hrun. cbn [mbind result_bind]. clear Hrun.
  destruct (Hgemini _ (get_attendance_status_outcome user_email e)) as [g Hg].
  destruct drive_client as [dc |].
  - unfold download_gemini_notes.
    destruct (download_loop_exact dc (event_dir user_email output_dir e d)
                (get (attachments e) []) (<[cand n := EventFile e]> (files a)) 0%nat 0%nat)
      as (fs' & Hnotes & Hsub & Hsize & Hnew).
    cbn [Nat.add] in Hnotes.
    unfold event_dir in Hnotes. rewrite Hnotes. cbn [mbind result_bind]. clear Hnotes.
    destruct (increment_ok _ (length (filter (fun x => completes dc x = true)
                                             (get (attachments e) [])))
                _ Hgemini (get_attendance_status_outcome user_email e))
      as (g' & Hg' & -> & Hgemini').
    rewrite Hg in Hg'. injection Hg' as <-.
    cbn [mbind result_bind Nat.add].
    eexists n, _, g. split; [reflexivity |]. cbn [files stats gemini_stats saved].
    repeat split; try assumption.
    + eapply lookup_weaken; [apply lookup_insert_eq | exact Hsub].
    + etrans; [apply insert_subseteq; exact Hfree | exact Hsub].
    + apply lookup_insert_eq.
    + intros s Hs. now rewrite lookup_insert_ne.
    + rewrite Hsize, map_size_insert_None by exact Hfree. cbn [notes_written]. lia.
    + intros p Hp Hsome. destruct (decide (p = cand n)) as [-> | Hne]; [now left |].
      right. split; [eauto |].
      apply Hnew; [now rewrite lookup_insert_ne | exact Hsome].
  - eexists n, _, g. split; [reflexivity |]. cbn [files stats gemini_stats saved].
    cbn [notes_completed notes_written]. rewrite !Nat.add_0_r.
    repeat split; try assumption.
    + apply lookup_insert_eq.
    + now apply insert_subseteq.
    + rewrite map_size_insert_None by exact Hfree. lia.
    + intros p Hp Hsome. destruct (decide (p = cand n)) as [-> | Hne]; [now left |].
      rewrite lookup_insert_ne, Hp in Hsome by done. now destruct Hsome.
Qed.

Lemma notes_tally_cons (outcome : string) (e : Event) (events : list Event) :
  notes_tally drive_client user_email outcome (e :: events)
  = ((if bool_decide (is_Some (event_date e)
                      /\ get_attendance_status e user_email = outcome)
      then notes_completed drive_client e else 0)
     + notes_tally drive_client user_email outcome events)%nat.
Proof.
  unfold notes_tally, archived. rewrite filter_cons.
  destruct (decide (is_Some (event_date e))) as [Hd | Hd].
  - rewrite filter_cons.
    destruct (decide (get_attendance_status e user_email = outcome)) as [Hs | Hs].
    + now rewrite bool_decide_eq_true_2.
    + rewrite bool_decide_eq_false_2; [reflexivity | tauto].
  - rewrite bool_decide_eq_false_2; [reflexivity | tauto].
Qed.

(** The whole loop: where each archived event is filed, what the new
    files are, and the counters of the notes. *)
Lemma save_loop_files (events : list Event) :
  forall a : Archive,
    counters (stats a) -> counters (gemini_stats a) ->
    exists a' new,
      save_loop user_email output_dir drive_client a events = Ok a' /\
      saved a' = saved a ++ new /\
      files a ⊆ files a' /\
      Forall2 (fun p e =>
                 files a !! p = None /\ files a' !! p = Some (EventFile e) /\
                 exists d n,
                   event_date e = Some d /\
                   p = candidate (event_dir user_email output_dir e d) (event_filename e)
                                 (event_new_filename (event_filename e)) n)
              new (archived events) /\
      (forall p, files a !! p = None -> is_Some (files a' !! p) ->
                 p ∈ new \/
                 (is_Some drive_client /\ exists text, files a' !! p = Some (NoteFile text))) /\
      size (files a')
      = (size (files a) + length (archived events)
         + sum_list (notes_written drive_client <$> archived events))%nat /\
      (forall s g, gemini_stats a !! s = Some g ->
                   gemini_stats a' !! s
                   = Some (g + notes_tally drive_client user_email s events)%nat).
Proof.
  induction events as [| e events IH]; intros a Hstats Hgemini; cbn [save_loop].
  - exists a, []. rewrite app_nil_r. unfold archived. rewrite filter_nil.
    repeat split; try done.
    + intros p -> [? [=]].
    + cbn. lia.
    + intros s g ->. f_equal. cbn. lia.
  - destruct (event_date e) as [d |] eqn:Hdate.
    + destruct (save_event_files a e d Hstats Hgemini Hdate)
        as (n & a1 & g1 & -> & Hfree & Hfile & Hsub & Hsaved & Hc1 & Hg1 & Hg & Hg' & Hother
            & Hsize & Hnew).
      cbn [mbind result_bind].
      destruct (IH a1 Hc1 Hg1)
        as (a' & new & -> & Hsaved' & Hsub' & Hall & Hnew' & Hsize' & Htally).
      eexists a', (_ :: new). split; [reflexivity |].
      assert (archived (e :: events) = e :: archived events) as Harch
        by (unfold archived; rewrite filter_cons, decide_True by (rewrite Hdate; eauto); done).
      rewrite Harch. split; [| split; [| split; [| split; [| split]]]].
      * rewrite Hsaved', Hsaved, <- app_assoc. reflexivity.
      * by etrans.
      * constructor.
        -- split; [exact Hfree |]. split; [eapply lookup_weaken; [exact Hfile | exact Hsub'] |].
           exists d, n. split; [exact Hdate | reflexivity].
        -- eapply Forall2_impl; [exact Hall |]. cbn. intros p e' (Hp & Hfile' & Hwhere).
           split; [eapply lookup_weaken_None; [exact Hp | exact Hsub] |].
           split; assumption.
      * intros p Hp Hsome. destruct (files a1 !! p) as [f |] eqn:Hp1.
        -- destruct (Hnew p Hp) as [-> | [Hdc [text Htext]]]; [by rewrite Hp1 | left; left |].
           right. split; [exact Hdc |]. exists text.
           eapply lookup_weaken; [exact Htext | exact Hsub'].
        -- destruct (Hnew' p Hp1 Hsome) as [Hin | Hnote]; [left; now right | now right].
      * rewrite Hsize', Hsize. cbn [fmap list_fmap sum_list sum_list_with length id]. lia.
      * intros s g Hs. rewrite notes_tally_cons.
        destruct (decide (get_attendance_status e user_email = s)) as [<- | Hne].
        -- rewrite bool_decide_eq_true_2 by (rewrite Hdate; eauto).
           rewrite Hs in Hg. injection Hg as <-.
           rewrite (Htally _ _ Hg'). f_equal. lia.
        -- rewrite bool_decide_eq_false_2 by tauto.
           apply Htally. rewrite Hother by done. exact Hs.
    + rewrite save_event_without_start by exact Hdate. cbn [mbind result_bind].
      destruct (IH a Hstats Hgemini)
        as (a' & new & -> & Hsaved' & Hsub' & Hall & Hnew' & Hsize' & Htally).
      exists a', new. split; [reflexivity |].
      assert (archived (e :: events) = archived events) as Harch.
      { unfold archived. rewrite filter_cons, decide_False; [done |].
        rewrite Hdate. now intros [? [=]]. }
      rewrite Harch. repeat split; try assumption.
      intros s g Hs. rewrite notes_tally_cons, bool_decide_eq_false_2.
      * now apply Htally.
      * rewrite Hdate. now intros [[? [=]] _].
Qed.

End ArchiveFiles.


(** X14: the counters of the notes: for each outcome, the number of notes of
    the archived events of that outcome whose download completed; without
    a drive client, zero.  The run adds one file per archived event and one
    per download that opened its file. *)
Theorem save_events_as_native_note_counts (fs : gmap string File) (events : list Event)
    (user_email output_dir : string) (drive_client : option DriveClient) :
  exists a,
    DownloadNotes.save_events_as_native fs events user_email output_dir drive_client = Ok a /\
    (forall outcome, outcome ∈ Spec.outcomes ->
       DownloadNotes.gemini_stats a !! outcome
       = Some (Vocabulary.notes_tally drive_client user_email outcome events)) /\
    size (DownloadNotes.files a)
    = (size fs + length (Spec.archived events)
       + sum_list (Vocabulary.notes_written drive_client <$> Spec.archived events))%nat.
Proof.
  unfold DownloadNotes.save_events_as_native.
  destruct (save_loop_files user_email output_dir drive_client events
              {| DownloadNotes.files := fs; DownloadNotes.stats := DownloadNotes.zero_counters;
                 DownloadNotes.gemini_stats := DownloadNotes.zero_counters;
                 DownloadNotes.saved := [] |} counters_zero counters_zero)
    as (a & new & Hrun & _ & _ & _ & _ & Hsize & Htally).
  cbn [DownloadNotes.files DownloadNotes.gemini_stats] in Hsize, Htally.
  exists a. repeat split; [exact Hrun | | exact Hsize].
  intros outcome Hout. destruct (counters_zero outcome Hout) as [z Hz].
  rewrite (Htally outcome z Hz). f_equal.
  unfold Spec.outcomes in Hout.
  repeat (apply elem_of_cons in Hout as [-> | Hout]); try (now apply elem_of_nil in Hout);
    vm_compute in Hz; injection Hz as <-; reflexivity.
Qed.

Lemma save_events_as_native_note_counts_witness :
  exists a,
    DownloadNotes.save_events_as_native ∅ [Samples.standup] Samples.me "out" None = Ok a /\
    DownloadNotes.gemini_stats a !! "attended" = Some 0%nat.
Proof.
  destruct (save_events_as_native_note_counts ∅ [Samples.standup] Samples.me "out" None)
    as (a & Hrun & Hnotes & _).
  exists a. split; [exact Hrun |]. rewrite Hnotes; [reflexivity |].
  unfold Spec.outcomes. set_solver.
Defined.

(** ** The paginated fetch, continued *)

Section Fetch.
Import CalendarClient Vocabulary.

Variable calendar_id time_min time_max : string.
Variable page_size : Z.

(** The pages that carry a cursor, followed by a page without one: the
    run with the lines it prints. *)
Lemma loop_pages_lines (final : EventsResult) (rest : list (result EventsResult))
    (pages : list EventsResult) :
  Forall (fun r => is_Some (nextPageToken r)) pages ->
  nextPageToken final = None ->
  forall (events : list Event) (page_token : option string)
         (asked : list ListRequest) (lines : list Line),
    eutt eq
      (interp_state serve
         (ITree.iter (round calendar_id time_min time_max page_size) (events, page_token))
         {| script := (Ok <$> pages ++ [final]) ++ rest;
            requests := asked; printed := lines |})
      (Ret ({| script := rest;
               requests := asked ++ (Spec.request_with calendar_id time_min time_max page_size
                                       <$> page_token :: (nextPageToken <$> pages));
               printed := lines ++ progress page_size (length events) (pages ++ [final]) |},
            Ok (events ++ concat (Spec.items_of <$> pages ++ [final])))).
Proof.
  intros Hpages Hfinal. induction Hpages as [| page pages [token Htoken] _ IH];
    intros events page_token asked lines.
  - rewrite unfold_iter. unfold round at 1.
    rewrite interp_state_bind, interp_state_bind, interp_state_trigger.
    cbn. rewrite bind_ret_l. cbn. rewrite Hfinal.
    rewrite interp_state_bind, interp_state_trigger. cbn.
    rewrite bind_ret_l, interp_state_ret, bind_ret_l. cbn.
    rewrite interp_state_ret, app_nil_r, length_app. reflexivity.
  - rewrite unfold_iter. unfold round at 1.
    rewrite interp_state_bind, interp_state_bind, interp_state_trigger.
    cbn. rewrite bind_ret_l. cbn. rewrite Htoken.
    rewrite interp_state_bind, interp_state_trigger. cbn.
    rewrite bind_ret_l, interp_state_bind, interp_state_trigger. cbn.
    rewrite bind_ret_l, interp_state_ret, bind_ret_l. cbn.
    rewrite interp_state_tau, tau_eutt.
    etransitivity;
      [exact (IH (events ++ Spec.items_of page) (Some token)
                 (asked ++ [Spec.request_with calendar_id time_min time_max page_size
                              page_token])
                 ((lines ++ [GotSoFar (length (events ++ Spec.items_of page))])
                  ++ [GrabbingNext page_size])) |].
    apply eqit_Ret. cbn [app fmap list_fmap concat progress]. rewrite ?Htoken.
    rewrite <- !app_assoc, length_app. reflexivity.
Qed.

(** The pages that carry a cursor, followed by a request that fails. *)
Lemma loop_pages_error (e : exn) (rest : list (result EventsResult))
    (pages : list EventsResult) :
  Forall (fun r => is_Some (nextPageToken r)) pages ->
  forall (events : list Event) (page_token : option string)
         (asked : list ListRequest) (lines : list Line),
    eutt eq
      (interp_state serve
         (ITree.iter (round calendar_id time_min time_max page_size) (events, page_token))
         {| script := (Ok <$> pages) ++ Raise e :: rest;
            requests := asked; printed := lines |})
      (Ret ({| script := rest;
               requests := asked ++ (Spec.request_with calendar_id time_min time_max page_size
                                       <$> page_token :: (nextPageToken <$> pages));
               printed := lines ++ progress page_size (length events) pages
                          ++ match e with HttpError => [ErrorOccurred] | _ => [] end |},
            Raise e)).
Proof.
  induction 1 as [| page pages [token Htoken] _ IH]; intros events page_token asked lines.
  - rewrite unfold_iter. unfold round at 1.
    rewrite interp_state_bind, interp_state_bind, interp_state_trigger.
    cbn. rewrite bind_ret_l. cbn.
    destruct e; cbn;
      try (rewrite interp_state_ret, bind_ret_l; cbn; rewrite interp_state_ret, app_nil_r;
           reflexivity).
    rewrite interp_state_bind, interp_state_trigger. cbn.
    rewrite bind_ret_l, interp_state_ret, bind_ret_l. cbn.
    rewrite interp_state_ret. reflexivity.
  - rewrite unfold_iter. unfold round at 1.
    rewrite interp_state_bind, interp_state_bind, interp_state_trigger.
    cbn. rewrite bind_ret_l. cbn. rewrite Htoken.
    rewrite interp_state_bind, interp_state_trigger. cbn.
    rewrite bind_ret_l, interp_state_bind, interp_state_trigger. cbn.
    rewrite bind_ret_l, interp_state_ret, bind_ret_l. cbn.
    rewrite interp_state_tau, tau_eutt.
    etransitivity;
      [exact (IH (events ++ Spec.items_of page) (Some token)
                 (asked ++ [Spec.request_with calendar_id time_min time_max page_size
                              page_token])
                 ((lines ++ [GotSoFar (length (events ++ Spec.items_of page))])
                  ++ [GrabbingNext page_size])) |].
    apply eqit_Ret. cbn [app fmap list_fmap concat progress]. rewrite ?Htoken.
    rewrite <- !app_assoc, length_app. reflexivity.
Qed.

(** X15: a request that fails ends [get_events]: the exception of the request
    is raised again, after the line [An error occurred] when it is an
    [HttpError] and without a line otherwise; the events of the pages
    fetched before it are not returned, and no further request is made.
    Up to the failure the run asks and prints as a successful one. *)
Theorem get_events_error (pages : list EventsResult) (e : exn)
    (rest : list (result EventsResult)) :
  Forall (fun r => is_Some (nextPageToken r)) pages ->
  eutt eq
    (run calendar_id time_min time_max page_size ((Ok <$> pages) ++ Raise e :: rest))
    (Ret ({| script := rest;
             requests := Spec.request_with calendar_id time_min time_max page_size
                           <$> None :: (nextPageToken <$> pages);
             printed := progress page_size 0 pages
                        ++ match e with HttpError => [ErrorOccurred] | _ => [] end |},
          Raise e)).
Proof.
  intros Hpages. exact (loop_pages_error e rest pages Hpages [] None [] []).
Qed.

Lemma progress_pages (n : nat) (pages : list EventsResult) (final : EventsResult) :
  Forall (fun r => is_Some (nextPageToken r)) pages ->
  nextPageToken final = None ->
  length (progress page_size n (pages ++ [final])) = S (2 * length pages) /\
  last (progress page_size n (pages ++ [final]))
  = Some (GotSoFar (n + length (concat (Spec.items_of <$> pages ++ [final])))).
Proof.
  intros Hpages Hfinal. revert n.
  induction Hpages as [| page pages [token Htoken] _ IH]; intros n.
  - cbn. rewrite Hfinal, app_nil_r. split; reflexivity.
  - cbn [app progress fmap list_fmap concat length]. rewrite Htoken.
    destruct (IH (n + length (Spec.items_of page))%nat) as [Hlen Hlast].
    cbn [length]. rewrite Hlen. split; [lia |].
    rewrite !last_cons, Hlast, length_app, Nat.add_assoc. reflexivity.
Qed.

(** X16: the progress lines of a successful fetch: after each page the running
    total of the events fetched so far, and between two pages the
    announcement of the next one; so two lines per page with a cursor, and
    a last line with the number of events returned. *)
Theorem get_events_progress (pages : list EventsResult) (final : EventsResult)
    (rest : list (result EventsResult)) :
  Forall (fun r => is_Some (nextPageToken r)) pages ->
  nextPageToken final = None ->
  eutt eq
    (run calendar_id time_min time_max page_size ((Ok <$> pages ++ [final]) ++ rest))
    (Ret ({| script := rest;
             requests := Spec.request_with calendar_id time_min time_max page_size
                           <$> None :: (nextPageToken <$> pages);
             printed := progress page_size 0 (pages ++ [final]) |},
          Ok (concat (Spec.items_of <$> pages ++ [final])))) /\
  length (progress page_size 0 (pages ++ [final])) = S (2 * length pages) /\
  last (progress page_size 0 (pages ++ [final]))
  = Some (GotSoFar (length (concat (Spec.items_of <$> pages ++ [final])))).
Proof.
  intros Hpages Hfinal. split.
  - exact (loop_pages_lines final rest pages Hpages Hfinal [] None [] []).
  - exact (progress_pages 0 pages final Hpages Hfinal).
Qed.

End Fetch.

Lemma get_events_error_witness :
  eutt eq
    (CalendarClient.run "primary" "2024-03-01" "2024-03-31" 2
       [Ok (CalendarClient.mkEventsResult (Some [Samples.standup; Samples.review]) (Some "p2"));
        Raise HttpError;
        Ok (CalendarClient.mkEventsResult (Some [Samples.sync]) None)])
    (Ret ({| CalendarClient.script :=
               [Ok (CalendarClient.mkEventsResult (Some [Samples.sync]) None)];
             CalendarClient.requests :=
               [Spec.request_with "primary" "2024-03-01" "2024-03-31" 2 None;
                Spec.request_with "primary" "2024-03-01" "2024-03-31" 2 (Some "p2")];
             CalendarClient.printed :=
               [CalendarClient.GotSoFar 2; CalendarClient.GrabbingNext 2;
                CalendarClient.ErrorOccurred] |},
          Raise HttpError)).
Proof.
  apply (get_events_error "primary" "2024-03-01" "2024-03-31" 2
           [CalendarClient.mkEventsResult (Some [Samples.standup; Samples.review]) (Some "p2")]
           HttpError
           [Ok (CalendarClient.mkEventsResult (Some [Samples.sync]) None)]).
  repeat constructor. cbn. eauto.
Defined.

Lemma get_events_progress_witness :
  eutt eq
    (CalendarClient.run "primary" "2024-03-01" "2024-03-31" 2
       [Ok (CalendarClient.mkEventsResult (Some [Samples.standup; Samples.review]) (Some "p2"));
        Ok (CalendarClient.mkEventsResult (Some [Samples.sync]) None)])
    (Ret ({| CalendarClient.script := [];
             CalendarClient.requests :=
               [Spec.request_with "primary" "2024-03-01" "2024-03-31" 2 None;
                Spec.request_with "primary" "2024-03-01" "2024-03-31" 2 (Some "p2")];
             CalendarClient.printed :=
               [CalendarClient.GotSoFar 2; CalendarClient.GrabbingNext 2;
                CalendarClient.GotSoFar 3] |},
          Ok [Samples.standup; Samples.review; Samples.sync])).
Proof.
  apply (get_events_progress "primary" "2024-03-01" "2024-03-31" 2
           [CalendarClient.mkEventsResult (Some [Samples.standup; Samples.review]) (Some "p2")]
           (CalendarClient.mkEventsResult (Some [Samples.sync]) None) []).
  - repeat constructor. cbn. eauto.
  - reflexivity.
Defined.

(** ** The commands *)

Section Commands.
Import CalendarClient Cli Vocabulary.

Variable email : string.
Variable page_size : Z.

(** X17: the command [list-events], run against a calendar that answers with
    pages of which the last only has no cursor.  When the month window can
    be computed, the command asks for the pages of the calendar [primary]
    between the two bounds in ISO format and hands the events of all pages
    to the report; with no event at all it writes nothing.  When the window
    cannot be computed, the exception ends the command before any
    request. *)
Theorem list_events_main_run (now : datetime) (months : Z)
    (pages : list EventsResult) (final : EventsResult) (rest : list (result EventsResult)) :
  Forall (fun r => is_Some (nextPageToken r)) pages ->
  nextPageToken final = None ->
  let world := {| script := (Ok <$> pages ++ [final]) ++ rest;
                  requests := []; printed := [] |} in
  match ListEvents.get_date_range now months with
  | Ok (time_min, time_max) =>
      eutt eq
        (interp_state serve (list_events_main now email page_size months) world)
        (Ret ({| script := rest;
                 requests := Spec.request_with "primary" (isoformat time_min)
                               (isoformat time_max) page_size
                               <$> None :: (nextPageToken <$> pages);
                 printed := progress page_size 0 (pages ++ [final]) |},
              match concat (Spec.items_of <$> pages ++ [final]) with
              | [] => Ok None
              | events =>
                  exported ← ListEvents.export_events_to_csv events email;
                  Ok (Some exported)
              end))
  | Raise e =>
      eutt eq
        (interp_state serve (list_events_main now email page_size months) world)
        (Ret (world, Raise e))
  end.
Proof.
  intros Hpages Hfinal world. unfold list_events_main.
  destruct (ListEvents.get_date_range now months) as [[time_min time_max] | e].
  - rewrite interp_state_bind. unfold get_events. subst world.
    rewrite (loop_pages_lines "primary" (isoformat time_min) (isoformat time_max) page_size
               final rest pages Hpages Hfinal [] None [] []).
    rewrite bind_ret_l. cbn [fst snd app length].
    destruct (concat (Spec.items_of <$> pages ++ [final])); rewrite interp_state_ret;
      reflexivity.
  - rewrite interp_state_ret. reflexivity.
Qed.

(** X18: the command [download-notes], run against such a calendar on the
    files [fs]: when the day window is in the range of dates, the command
    asks for the pages of the calendar [primary] between its bounds and
    hands the events of all pages to the archive, with the drive client;
    with no event at all it files nothing.  When the window is out of
    range, the [OverflowError] ends the command before any request. *)
Theorem download_notes_main_run (now : datetime) (days : Z) (fs : gmap string File)
    (drive_client : DriveClient) (output_dir : string)
    (pages : list EventsResult) (final : EventsResult) (rest : list (result EventsResult)) :
  Forall (fun r => is_Some (nextPageToken r)) pages ->
  nextPageToken final = None ->
  let world := {| script := (Ok <$> pages ++ [final]) ++ rest;
                  requests := []; printed := [] |} in
  let command := download_notes_main now email page_size fs drive_client days output_dir in
  match DownloadNotes.get_date_range now days with
  | InRange (Ok (time_min, time_max)) =>
      eutt eq
        (interp_state serve command world)
        (Ret ({| script := rest;
                 requests := Spec.request_with "primary" (isoformat time_min)
                               (isoformat time_max) page_size
                               <$> None :: (nextPageToken <$> pages);
                 printed := progress page_size 0 (pages ++ [final]) |},
              InRange
                match concat (Spec.items_of <$> pages ++ [final]) with
                | [] => Ok None
                | events =>
                    archive ← DownloadNotes.save_events_as_native fs events email output_dir
                                (Some drive_client);
                    Ok (Some archive)
                end))
  | InRange (Raise e) => eutt eq (interp_state serve command world) (Ret (world, InRange (Raise e)))
  | OverflowError => eutt eq (interp_state serve command world) (Ret (world, OverflowError))
  end.
Proof.
  intros Hpages Hfinal world command. subst command. unfold download_notes_main.
  destruct (DownloadNotes.get_date_range now days) as [[[time_min time_max] | e] |].
  - rewrite interp_state_bind. unfold get_events. subst world.
    rewrite (loop_pages_lines "primary" (isoformat time_min) (isoformat time_max) page_size
               final rest pages Hpages Hfinal [] None [] []).
    rewrite bind_ret_l. cbn [fst snd app length].
    destruct (concat (Spec.items_of <$> pages ++ [final])); rewrite interp_state_ret;
      reflexivity.
  - rewrite interp_state_ret. reflexivity.
  - rewrite interp_state_ret. reflexivity.
Qed.

End Commands.

Lemma list_events_main_run_witness :
  eutt eq
    (interp_state CalendarClient.serve
       (Cli.list_events_main Samples.now_2024_02_15 Samples.me 50 1)
       {| CalendarClient.script :=
            [Ok (CalendarClient.mkEventsResult (Some [Samples.standup]) (Some "p2"));
             Ok (CalendarClient.mkEventsResult (Some [Samples.sync]) None)];
          CalendarClient.requests := []; CalendarClient.printed := [] |})
    (Ret ({| CalendarClient.script := [];
             CalendarClient.requests :=
               [Spec.request_with "primary" "2024-02-01T00:00:00+00:00"
                  "2024-02-29T23:59:59+00:00" 50 None;
                Spec.request_with "primary" "2024-02-01T00:00:00+00:00"
                  "2024-02-29T23:59:59+00:00" 50 (Some "p2")];
             CalendarClient.printed :=
               [CalendarClient.GotSoFar 1; CalendarClient.GrabbingNext 50;
                CalendarClient.GotSoFar 2] |},
          exported ← ListEvents.export_events_to_csv [Samples.standup; Samples.sync] Samples.me;
          Ok (Some exported))).
Proof.
  apply (list_events_main_run Samples.me 50 Samples.now_2024_02_15 1
           [CalendarClient.mkEventsResult (Some [Samples.standup]) (Some "p2")]
           (CalendarClient.mkEventsResult (Some [Samples.sync]) None) []).
  - repeat constructor. cbn. eauto.
  - reflexivity.
Defined.

Lemma download_notes_main_run_witness :
  eutt eq
    (interp_state CalendarClient.serve
       (Cli.download_notes_main Samples.now_2024_02_15 Samples.me 50 ∅
          (mkDriveClient (fun _ => Refused)) 30 "out")
       {| CalendarClient.script :=
            [Ok (CalendarClient.mkEventsResult (Some [Samples.standup]) None)];
          CalendarClient.requests := []; CalendarClient.printed := [] |})
    (Ret ({| CalendarClient.script := [];
             CalendarClient.requests :=
               [Spec.request_with "primary" "2024-01-16T00:00:00+00:00"
                  "2024-02-15T23:59:59.999999+00:00" 50 None];
             CalendarClient.printed := [CalendarClient.GotSoFar 1] |},
          InRange
            (archive ← DownloadNotes.save_events_as_native ∅ [Samples.standup] Samples.me
                         "out" (Some (mkDriveClient (fun _ => Refused)));
             Ok (Some archive)))).
Proof.
  apply (download_notes_main_run Samples.me 50 Samples.now_2024_02_15 30 ∅
           (mkDriveClient (fun _ => Refused)) "out" []
           (CalendarClient.mkEventsResult (Some [Samples.standup]) None) []).
  - constructor.
  - reflexivity.
Defined.
